(** * telegram.ext.messagequeue: throughput-limiting delay queues

    A shallow embedding of [src/telegram/ext/messagequeue.py] and the
    properties its specification states about it.

    Conventions of the embedding.
    - Python objects that are mutated and shared ([DelayQueue],
      [MessageQueue]) live in a store ([World]) and are named by references.
    - A method is a computation in the monad [M]: it threads the store and
      either returns a value or raises a Python exception.  The store
      survives a raise, as attribute writes made before a [raise] do.
    - Clock readings and durations are integers, in ticks of a nanosecond;
      [time_limit] is the window in ticks.  The code computes the same
      expressions on floating-point seconds and rounds; the embedding does
      not.  The claims and further properties below therefore speak of the
      values the code computes (the cutoff [now - time_limit], the sleep
      [times[1] - cutoff]) and of their order; none of them rests on a
      difference being exact.
    - Every worker thread carries its own reading of the time line
      ([thread_clock]): reading the clock after some latency moves it forward
      by that latency, and [time.sleep d] moves it forward by exactly [d]. *)

From Stdlib Require Import ZArith Lia.
From stdpp Require Import base tactics option list strings pretty gmap fin_maps.

#[local] Open Scope Z_scope.

(** ** Python values *)

Inductive Exception : Type :=
| ValueError (msg : string)
| DelayQueueError (msg : string)      (* class DelayQueueError(RuntimeError) *)
| RuntimeError (msg : string)
| IndexError
| KeyError (key : string)
| TypeError
| AttributeError
| ReferenceError                      (* a dangling reference of the model *)
| TaskError (code : nat).             (* an Exception raised by a task *)

Definition PyArgs : Type := list Z.
Definition PyKwargs : Type := list (string * Z).

(** A callable is known by what calling it raises, if anything. *)
Record PyCallable := mkCallable {
  fn_id : nat;
  fn_call : PyArgs -> PyKwargs -> option Exception;
}.

Definition is_not_None {A} (v : option A) : bool :=
  match v with Some _ => true | None => false end.

(** [bool(x)] for a value that is either [None] or an object without
    [__bool__] and [__len__] (always truthy). *)
Definition py_bool {A} (v : option A) : bool := is_not_None v.

Definition py_len {A} (l : list A) : Z := Z.of_nat (length l).

(** [l[i]], with Python's negative indices; out of range is [IndexError]. *)
Definition getitem {A} (l : list A) (i : Z) : Exception + A :=
  let j := if i <? 0 then i + py_len l else i in
  if j <? 0 then inl IndexError
  else match l !! Z.to_nat j with
       | Some x => inr x
       | None => inl IndexError
       end.

(** ** telegram.utils.promise.Promise *)

(** Modelled from the spec: the task handle ([telegram.utils.promise.Promise],
    not part of this module) "wraps a callable plus arguments; exposes
    [run()] and exposes whether execution raised an error plus the captured
    error". *)
Record Promise := mkPromise {
  pooled_function : option PyCallable;
  args : option PyArgs;
  kwargs : option PyKwargs;
  is_done : bool;
  exception : option Exception;
}.

Definition Promise__init__ (func : option PyCallable) (a : option PyArgs)
    (k : option PyKwargs) : Promise :=
  {| pooled_function := func; args := a; kwargs := k;
     is_done := false; exception := None |}.

(** Modelled from the spec: [run()] invokes the callable and captures the
    error it raises instead of propagating it. *)
Definition Promise_run (p : Promise) : Promise :=
  let outcome :=
    match pooled_function p, args p, kwargs p with
    | Some f, Some a, Some k => fn_call f a k
    | _, _, _ => Some TypeError
    end in
  {| pooled_function := pooled_function p; args := args p; kwargs := kwargs p;
     is_done := true; exception := outcome |}.

(** ** Collaborators: dispatcher and error handlers *)

Record Dispatcher := mkDispatcher { dispatcher_id : nat }.

(** An error handler is the built-in [_default_exception_handler] or a
    callable of the user, known by what it raises (if anything) when it is
    called with an exception. *)
Inductive ErrorHandler : Type :=
| _default_exception_handler
| handler (hid : nat) (h_call : Exception -> option Exception).

(** ** Objects and the store *)

Definition ref : Type := nat.

(** A [DelayQueue] object: the attributes set by [__init__], the part of
    [threading.Thread] the module relies on ([_started], [_alive]), and the
    activation record of [run] ([times], [thread_clock]). *)
Record DelayQueue := mkDelayQueue {
  name : string;
  _queue : list (option Promise);     (* q.Queue, FIFO; None is the sentinel *)
  burst_limit : Z;
  time_limit : Z;
  parent : option ref;
  dispatcher : option Dispatcher;
  exc_route : ErrorHandler;
  __exit_req : bool;
  _started : bool;
  _alive : bool;
  times : list Z;
  thread_clock : Z;
}.

(** A [MessageQueue] object.  [_delay_queues] is a Python dict: keys are
    unique and keep their insertion order. *)
Record MessageQueue := mkMessageQueue {
  running : bool;
  mq_dispatcher : option Dispatcher;
  _delay_queues : list (string * ref);
}.

(** Observable effects of the worker threads and of the constructors: the
    calls they make to their collaborators, in the order they make them. *)
Inductive Event : Type :=
| EvSleep (self : ref) (d : Z)                          (* time.sleep(d) *)
| EvForward (self : ref) (to : ref) (p : option Promise) (* self.parent.put(promise=p) *)
| EvRun (self : ref) (p : Promise)                      (* promise.run() *)
| EvPostProcess (self : ref) (d : Dispatcher) (p : Promise)
| EvExcRoute (self : ref) (h : ErrorHandler) (e : Exception)
| EvWarn (msg : string).                                (* warnings.warn *)

Record World := mkWorld {
  heap : gmap ref DelayQueue;
  mq_heap : gmap ref MessageQueue;
  INSTANCE_COUNT : nat;               (* DelayQueue.INSTANCE_COUNT *)
  log : list Event;
}.

Definition set_heap (h : gmap ref DelayQueue) (w : World) : World :=
  {| heap := h; mq_heap := mq_heap w;
     INSTANCE_COUNT := INSTANCE_COUNT w; log := log w |}.

Definition set_mq_heap (h : gmap ref MessageQueue) (w : World) : World :=
  {| heap := heap w; mq_heap := h;
     INSTANCE_COUNT := INSTANCE_COUNT w; log := log w |}.

Definition add_log (e : Event) (w : World) : World :=
  {| heap := heap w; mq_heap := mq_heap w;
     INSTANCE_COUNT := INSTANCE_COUNT w; log := log w ++ [e] |}.

(** ** The monad of methods *)

Definition M (A : Type) : Type := World -> World * (Exception + A).

Definition ret {A} (a : A) : M A := fun w => (w, inr a).
Definition raise {A} (e : Exception) : M A := fun w => (w, inl e).
Definition bind {A B} (m : M A) (k : A -> M B) : M B :=
  fun w => match m w with
           | (w', inl e) => (w', inl e)
           | (w', inr a) => k a w'
           end.

Notation "'do' x <- m ;; k" := (bind m (fun x => k))
  (at level 10, x name, m at level 99, k at level 200).

Definition lift {A} (r : Exception + A) : M A := fun w => (w, r).
Definition emit (e : Event) : M unit := fun w => (add_log e w, inr tt).

(** Attribute access on a [DelayQueue] reference. *)
Definition deref (r : ref) : M DelayQueue :=
  fun w => match heap w !! r with
           | Some o => (w, inr o)
           | None => (w, inl ReferenceError)
           end.

Definition update (r : ref) (f : DelayQueue -> DelayQueue) : M unit :=
  fun w => match heap w !! r with
           | Some o => (set_heap (<[r := f o]> (heap w)) w, inr tt)
           | None => (w, inl ReferenceError)
           end.

Definition deref_mq (r : ref) : M MessageQueue :=
  fun w => match mq_heap w !! r with
           | Some o => (w, inr o)
           | None => (w, inl ReferenceError)
           end.

Definition update_mq (r : ref) (f : MessageQueue -> MessageQueue) : M unit :=
  fun w => match mq_heap w !! r with
           | Some o => (set_mq_heap (<[r := f o]> (mq_heap w)) w, inr tt)
           | None => (w, inl ReferenceError)
           end.

(** Object creation: the new object gets an identity no live object has. *)
Definition new_DelayQueue (o : DelayQueue) : M ref :=
  fun w => let r := fresh (dom (heap w)) in
           (set_heap (<[r := o]> (heap w)) w, inr r).

Definition new_MessageQueue (m : MessageQueue) : M ref :=
  fun w => let r := fresh (dom (mq_heap w)) in
           (set_mq_heap (<[r := m]> (mq_heap w)) w, inr r).

(** [self.__class__.INSTANCE_COUNT += 1], returning the new count. *)
Definition next_instance_count : M nat :=
  fun w => ({| heap := heap w; mq_heap := mq_heap w;
               INSTANCE_COUNT := S (INSTANCE_COUNT w); log := log w |},
            inr (S (INSTANCE_COUNT w))).

Fixpoint for_each {A} (l : list A) (body : A -> M unit) : M unit :=
  match l with
  | [] => ret tt
  | x :: l' => do _ <- body x ;; for_each l' body
  end.

(** ** Field updates of a [DelayQueue] *)

Definition set_queue (q : list (option Promise)) (o : DelayQueue) : DelayQueue :=
  {| name := name o; _queue := q; burst_limit := burst_limit o;
     time_limit := time_limit o; parent := parent o;
     dispatcher := dispatcher o; exc_route := exc_route o;
     __exit_req := __exit_req o; _started := _started o; _alive := _alive o;
     times := times o; thread_clock := thread_clock o |}.

Definition set_dispatcher_attr (d : option Dispatcher) (o : DelayQueue) : DelayQueue :=
  {| name := name o; _queue := _queue o; burst_limit := burst_limit o;
     time_limit := time_limit o; parent := parent o;
     dispatcher := d; exc_route := exc_route o;
     __exit_req := __exit_req o; _started := _started o; _alive := _alive o;
     times := times o; thread_clock := thread_clock o |}.

Definition set_exit_req (b : bool) (o : DelayQueue) : DelayQueue :=
  {| name := name o; _queue := _queue o; burst_limit := burst_limit o;
     time_limit := time_limit o; parent := parent o;
     dispatcher := dispatcher o; exc_route := exc_route o;
     __exit_req := b; _started := _started o; _alive := _alive o;
     times := times o; thread_clock := thread_clock o |}.

Definition set_thread (started alive : bool) (o : DelayQueue) : DelayQueue :=
  {| name := name o; _queue := _queue o; burst_limit := burst_limit o;
     time_limit := time_limit o; parent := parent o;
     dispatcher := dispatcher o; exc_route := exc_route o;
     __exit_req := __exit_req o; _started := started; _alive := alive;
     times := times o; thread_clock := thread_clock o |}.

Definition set_times (ts : list Z) (o : DelayQueue) : DelayQueue :=
  {| name := name o; _queue := _queue o; burst_limit := burst_limit o;
     time_limit := time_limit o; parent := parent o;
     dispatcher := dispatcher o; exc_route := exc_route o;
     __exit_req := __exit_req o; _started := _started o; _alive := _alive o;
     times := ts; thread_clock := thread_clock o |}.

Definition advance_clock (d : Z) (o : DelayQueue) : DelayQueue :=
  {| name := name o; _queue := _queue o; burst_limit := burst_limit o;
     time_limit := time_limit o; parent := parent o;
     dispatcher := dispatcher o; exc_route := exc_route o;
     __exit_req := __exit_req o; _started := _started o; _alive := _alive o;
     times := times o; thread_clock := thread_clock o + d |}.

(** ** threading.Thread, queue.Queue and time, as the module uses them *)

Definition Thread_start (self : ref) : M unit :=
  do o <- deref self ;;
  if _started o then raise (RuntimeError "threads can only be started once")
  else update self (set_thread true true).

Definition Thread_is_alive (self : ref) : M bool :=
  do o <- deref self ;; ret (_alive o).

(** [join] waits for the thread or for the timeout; what the caller can
    tell afterwards is only that it returned.  The embedding lets it return
    at once, as it does when the timeout runs out first; when it waits
    longer, the worker takes its turns meanwhile, and these are turns of a
    history ([worker_turn]).  What is stated about [stop] below is what holds
    in both cases: the shutdown flag stays set, and joining a thread that was
    never started raises. *)
Definition Thread_join (self : ref) (timeout : option Z) : M unit :=
  do o <- deref self ;;
  if _started o then ret tt
  else raise (RuntimeError "cannot join thread before it is started").

(** The thread leaves [run], by [return] or by an uncaught exception. *)
Definition Thread_exit (self : ref) : M unit :=
  update self (set_thread true false).

Definition Queue_put (self : ref) (item : option Promise) : M unit :=
  do o <- deref self ;; update self (set_queue (_queue o ++ [item])).

(** [get] on an empty queue blocks: [None] stands for "no item yet". *)
Definition Queue_get (self : ref) : M (option (option Promise)) :=
  do o <- deref self ;;
  match _queue o with
  | [] => ret None
  | item :: rest => do _ <- update self (set_queue rest) ;; ret (Some item)
  end.

(** [time.perf_counter()] read by the worker of [self], [latency] ticks after
    it last looked at the clock or woke up. *)
Definition perf_counter (self : ref) (latency : Z) : M Z :=
  do _ <- update self (advance_clock latency) ;;
  do o <- deref self ;; ret (thread_clock o).

(** [time.sleep(secs)]: wakes exactly [secs] later. *)
Definition time_sleep (self : ref) (secs : Z) : M unit :=
  if secs <? 0 then raise (ValueError "sleep length must be non-negative")
  else do _ <- emit (EvSleep self secs) ;; update self (advance_clock secs).

Definition TICKS_PER_MS : Z := 1000000.

(** ** class DelayQueue(threading.Thread) *)

(** [exc_route or error_handler or self._default_exception_handler] *)
Definition handler_or_default (exc_route error_handler : option ErrorHandler) : ErrorHandler :=
  match exc_route with
  | Some h => h
  | None => match error_handler with
            | Some h => h
            | None => _default_exception_handler
            end
  end.

Definition DelayQueue__init__ (queue : option (list (option Promise)))
    (burst_limit_arg time_limit_ms : Z) (exc_route_arg : option ErrorHandler)
    (autostart : bool) (name_arg : option string) (parent_arg : option ref)
    (error_handler : option ErrorHandler) : M ref :=
  if py_bool exc_route_arg && py_bool error_handler
  then raise (ValueError "Only one of exc_route or error_handler can be passed.")
  else
    do _ <- (if py_bool exc_route_arg
             then emit (EvWarn "The exc_route argument is deprecated. Use error_handler instead.")
             else ret tt) ;;
    do count <- next_instance_count ;;
    do self <- new_DelayQueue
      {| name := match name_arg with
                 | Some s => s
                 | None => "DelayQueue-" +:+ pretty count
                 end;
         _queue := match queue with Some q => q | None => [] end;
         burst_limit := burst_limit_arg;
         time_limit := time_limit_ms * TICKS_PER_MS;
         parent := parent_arg;
         dispatcher := None;
         exc_route := handler_or_default exc_route_arg error_handler;
         __exit_req := false;
         _started := false; _alive := false;
         times := []; thread_clock := 0 |} ;;
    do _ <- (if autostart then Thread_start self else ret tt) ;;
    ret self.

Definition DelayQueue_set_dispatcher (self : ref) (d : Dispatcher) : M unit :=
  update self (set_dispatcher_attr (Some d)).

(** [exc_route(exc)] *)
Definition call_exc_route (self : ref) (h : ErrorHandler) (exc : Exception) : M unit :=
  do _ <- emit (EvExcRoute self h exc) ;;
  match h with
  | _default_exception_handler => raise exc
  | handler _ h_call => match h_call exc with
                        | Some e => raise e
                        | None => ret tt
                        end
  end.

Definition DelayQueue_put (self : ref) (func : option PyCallable)
    (args_ : option PyArgs) (kwargs_ : option PyKwargs)
    (promise : option Promise) : M Promise :=
  if negb (xorb (py_bool promise)
                (forallb id [is_not_None func; is_not_None args_; is_not_None kwargs_]))
  then raise (ValueError "You must pass either a promise or all all func, args, kwargs.")
  else
    do o <- deref self ;;
    if negb (_alive o) || __exit_req o
    then raise (DelayQueueError "Could not process callback in stopped thread")
    else
      let promise' := match promise with
                      | Some p => p
                      | None => Promise__init__ func args_ kwargs_
                      end in
      do _ <- Queue_put self (Some promise') ;;
      ret promise'.

Inductive LoopCtl : Type :=
| Continue      (* the loop goes on to its next iteration *)
| Return        (* [return]: the thread shuts down *)
| Blocked.      (* [get] found the queue empty and waits *)

(** The delay routine of [run] (lines 142-154). *)
Definition delay_routine (self : ref) (latency : Z) : M unit :=
  do now <- perf_counter self latency ;;
  do o <- deref self ;;
  let t_delta := now - time_limit o in
  do reset <- (match times o with
               | [] => ret false
               | _ => do last_t <- lift (getitem (times o) (-1)) ;;
                      ret (bool_decide (t_delta > last_t))
               end) ;;
  let times' := if (reset : bool) then [now]
                else filter (fun t => t >= t_delta) (times o) ++ [now] in
  do _ <- update self (set_times times') ;;
  if bool_decide (py_len times' >= burst_limit o)
  then do t1 <- lift (getitem times' 1) ;; time_sleep self (t1 - t_delta)
  else ret tt.

(** "finally process one" (lines 157-166). *)
Definition process_one (self : ref) (promise : option Promise) : M unit :=
  do o <- deref self ;;
  match parent o with
  | Some p =>
      do _ <- emit (EvForward self p promise) ;;
      do _ <- DelayQueue_put p None None None promise ;; ret tt
  | None =>
      match promise with
      | None => raise AttributeError
      | Some p =>
          let p' := Promise_run p in
          do _ <- emit (EvRun self p') ;;
          match dispatcher o with
          | Some d => emit (EvPostProcess self d p')
          | None => match exception p' with
                    | Some e => call_exc_route self (exc_route o) e
                    | None => ret tt
                    end
          end
      end
  end.

(** One turn of the [while True] loop of [run]. *)
Definition run_iteration (self : ref) (latency : Z) : M LoopCtl :=
  do got <- Queue_get self ;;
  match got with
  | None => ret Blocked
  | Some promise =>
      do o <- deref self ;;
      if __exit_req o then ret Return
      else
        do _ <- delay_routine self latency ;;
        do _ <- process_one self promise ;;
        ret Continue
  end.

Fixpoint run_loop (self : ref) (latencies : list Z) : M LoopCtl :=
  match latencies with
  | [] => ret Continue
  | d :: rest =>
      do c <- run_iteration self d ;;
      match c with
      | Continue => run_loop self rest
      | _ => ret c
      end
  end.

(** [run]: as many turns of the loop as there are latencies given. *)
Definition DelayQueue_run (self : ref) (latencies : list Z) : M LoopCtl :=
  do _ <- update self (set_times []) ;;
  run_loop self latencies.

Definition DelayQueue_stop (self : ref) (timeout : option Z) : M unit :=
  do _ <- update self (set_exit_req true) ;;
  do _ <- Queue_put self None ;;
  Thread_join self timeout.

(** ** class MessageQueue *)

Definition DEFAULT_QUEUE : string := "default_delay_queue".
Definition GROUP_QUEUE : string := "group_delay_queue".

(** [d[k] = v] *)
Fixpoint dict_set (k : string) (v : ref) (d : list (string * ref)) : list (string * ref) :=
  match d with
  | [] => [(k, v)]
  | (k', v') :: d' =>
      if bool_decide (k = k') then (k, v) :: d' else (k', v') :: dict_set k v d'
  end.

(** [d[k]] *)
Fixpoint dict_get (k : string) (d : list (string * ref)) : option ref :=
  match d with
  | [] => None
  | (k', v') :: d' => if bool_decide (k = k') then Some v' else dict_get k d'
  end.

(** [d] without the key [k] *)
Fixpoint dict_del (k : string) (d : list (string * ref)) : list (string * ref) :=
  match d with
  | [] => []
  | (k', v') :: d' => if bool_decide (k = k') then d' else (k', v') :: dict_del k d'
  end.

Definition dict_values (d : list (string * ref)) : list ref := d.*2.

Definition set_delay_queues (d : list (string * ref)) (m : MessageQueue) : MessageQueue :=
  {| running := running m; mq_dispatcher := mq_dispatcher m; _delay_queues := d |}.

Definition set_running (b : bool) (m : MessageQueue) : MessageQueue :=
  {| running := b; mq_dispatcher := mq_dispatcher m; _delay_queues := _delay_queues m |}.

Definition set_mq_dispatcher (d : option Dispatcher) (m : MessageQueue) : MessageQueue :=
  {| running := running m; mq_dispatcher := d; _delay_queues := _delay_queues m |}.

(** [exc_route or error_handler], as passed on to both built-in queues. *)
Definition first_handler (exc_route_arg error_handler : option ErrorHandler) : option ErrorHandler :=
  match exc_route_arg with
  | Some h => Some h
  | None => error_handler
  end.

Definition MessageQueue__init__ (all_burst_limit all_time_limit_ms
    group_burst_limit group_time_limit_ms : Z) (exc_route_arg : option ErrorHandler)
    (autostart : bool) (error_handler : option ErrorHandler) : M ref :=
  if py_bool exc_route_arg && py_bool error_handler
  then raise (ValueError "Only one of exc_route or error_handler can be passed.")
  else
    do _ <- (if py_bool exc_route_arg
             then emit (EvWarn "The exc_route argument is deprecated. Use error_handler instead.")
             else ret tt) ;;
    do dflt <- DelayQueue__init__ None all_burst_limit all_time_limit_ms None
                 autostart (Some DEFAULT_QUEUE) None
                 (first_handler exc_route_arg error_handler) ;;
    do grp <- DelayQueue__init__ None group_burst_limit group_time_limit_ms None
                autostart (Some GROUP_QUEUE) (Some dflt)
                (first_handler exc_route_arg error_handler) ;;
    new_MessageQueue
      {| running := autostart; mq_dispatcher := None;
         _delay_queues := dict_set GROUP_QUEUE grp (dict_set DEFAULT_QUEUE dflt []) |}.

Definition MessageQueue_add_delay_queue (self : ref) (delay_queue : ref) : M unit :=
  do q <- deref delay_queue ;;
  do m0 <- deref_mq self ;;
  do _ <- update_mq self (set_delay_queues (dict_set (name q) delay_queue (_delay_queues m0))) ;;
  do m <- deref_mq self ;;
  do _ <- (match mq_dispatcher m with
           | Some d => DelayQueue_set_dispatcher delay_queue d
           | None => ret tt
           end) ;;
  do alive <- Thread_is_alive delay_queue ;;
  if running m && negb alive then Thread_start delay_queue else ret tt.

Definition MessageQueue_remove_delay_queue (self : ref) (name_ : string)
    (timeout : option Z) : M unit :=
  do m0 <- deref_mq self ;;
  match dict_get name_ (_delay_queues m0) with
  | None => raise (KeyError name_)
  | Some delay_queue =>
      do _ <- update_mq self (set_delay_queues (dict_del name_ (_delay_queues m0))) ;;
      do m <- deref_mq self ;;
      do alive <- Thread_is_alive delay_queue ;;
      if running m && alive then DelayQueue_stop delay_queue timeout else ret tt
  end.

Definition MessageQueue_start (self : ref) : M unit :=
  do m <- deref_mq self ;;
  do _ <- for_each (dict_values (_delay_queues m)) Thread_start ;;
  update_mq self (set_running true).

Definition MessageQueue_stop (self : ref) (timeout : option Z) : M unit :=
  do m <- deref_mq self ;;
  for_each (dict_values (_delay_queues m))
           (fun delay_queue => DelayQueue_stop delay_queue timeout).

Definition MessageQueue_put (self : ref) (func : option PyCallable)
    (delay_queue : string) (args_ : PyArgs) (kwargs_ : PyKwargs) : M Promise :=
  do m <- deref_mq self ;;
  match dict_get delay_queue (_delay_queues m) with
  | None => raise (KeyError delay_queue)
  | Some q => DelayQueue_put q func (Some args_) (Some kwargs_) None
  end.

Definition MessageQueue_set_dispatcher (self : ref) (d : Dispatcher) : M unit :=
  update_mq self (set_mq_dispatcher (Some d)).

(** The empty store, before any object is created. *)
Definition world0 : World :=
  {| heap := ∅; mq_heap := ∅; INSTANCE_COUNT := 0%nat; log := [] |}.

(** ** Threads and histories

    The worker of a started queue runs [run] on a thread of its own.  A
    history is a sequence of actions: calls of the public methods made by
    any thread, and turns of a worker's loop, in the order they take
    effect. *)

(** One turn of the loop on the worker thread of [self]: nothing happens
    unless the thread is alive; leaving [run], by [return] or by an
    exception nobody catches, ends the thread. *)
Definition worker_turn (self : ref) (latency : Z) : M unit :=
  do o <- deref self ;;
  if _alive o then
    fun w => match run_iteration self latency w with
             | (w', inr Continue) => (w', inr tt)
             | (w', inr Blocked) => (w', inr tt)
             | (w', inr Return) => Thread_exit self w'
             | (w', inl _) => Thread_exit self w'
             end
  else ret tt.

Inductive Action : Type :=
| ANew (queue : option (list (option Promise))) (burst time_ms : Z)
       (exc_route_arg : option ErrorHandler) (autostart : bool)
       (name_arg : option string) (parent_arg : option ref)
       (error_handler : option ErrorHandler)
| APut (q : ref) (func : option PyCallable) (a : option PyArgs)
       (k : option PyKwargs) (promise : option Promise)
| AStop (q : ref) (timeout : option Z)
| AStart (q : ref)
| ASetDispatcher (q : ref) (d : Dispatcher)
| AWorker (q : ref) (latency : Z)
| AMqNew (b1 t1 b2 t2 : Z) (exc_route_arg : option ErrorHandler)
         (autostart : bool) (error_handler : option ErrorHandler)
| AMqAdd (mq q : ref)
| AMqRemove (mq : ref) (name_ : string) (timeout : option Z)
| AMqStart (mq : ref)
| AMqStop (mq : ref) (timeout : option Z)
| AMqPut (mq : ref) (func : option PyCallable) (name_ : string)
         (a : PyArgs) (k : PyKwargs)
| AMqSetDispatcher (mq : ref) (d : Dispatcher).

Definition forget {A} (m : M A) : World -> World := fun w => (m w).1.

Definition do_action (a : Action) : World -> World :=
  match a with
  | ANew q b t e s n p h => forget (DelayQueue__init__ q b t e s n p h)
  | APut q f a k p => forget (DelayQueue_put q f a k p)
  | AStop q t => forget (DelayQueue_stop q t)
  | AStart q => forget (Thread_start q)
  | ASetDispatcher q d => forget (DelayQueue_set_dispatcher q d)
  | AWorker q d => forget (worker_turn q d)
  | AMqNew b1 t1 b2 t2 e s h => forget (MessageQueue__init__ b1 t1 b2 t2 e s h)
  | AMqAdd mq q => forget (MessageQueue_add_delay_queue mq q)
  | AMqRemove mq n t => forget (MessageQueue_remove_delay_queue mq n t)
  | AMqStart mq => forget (MessageQueue_start mq)
  | AMqStop mq t => forget (MessageQueue_stop mq t)
  | AMqPut mq f n a k => forget (MessageQueue_put mq f n a k)
  | AMqSetDispatcher mq d => forget (MessageQueue_set_dispatcher mq d)
  end.

Definition history (acts : list Action) (w : World) : World :=
  foldl (fun w a => do_action a w) w acts.

(** ** What the specification talks about *)

(** The worker an event belongs to. *)
Definition ev_self (e : Event) : option ref :=
  match e with
  | EvSleep s _ | EvForward s _ _ | EvRun s _ | EvPostProcess s _ _
  | EvExcRoute s _ _ => Some s
  | EvWarn _ => None
  end.

(** The events of the worker of [self], in order. *)
Definition events_of (self : ref) (l : list Event) : list Event :=
  filter (fun e => ev_self e = Some self) l.



(** The sliding-window maintenance in the words of the specification:
    "If recentTimestamps is non-empty and its last entry is already older
    than cutoff, reset recentTimestamps to [now].  Otherwise, filter
    recentTimestamps to keep only entries >= cutoff, then append now." *)
Definition spec_window (cutoff now : Z) (recent : list Z) : list Z :=
  match last recent with
  | Some t => if bool_decide (t < cutoff) then [now]
              else filter (fun t => cutoff <= t) recent ++ [now]
  | None => filter (fun t => cutoff <= t) recent ++ [now]
  end.

(** The argument check of [put] in the words of the specification: exactly
    one of a prebuilt promise or all three of func, args, kwargs. *)
Definition exactly_one_supplied (func : option PyCallable) (a : option PyArgs)
    (k : option PyKwargs) (promise : option Promise) : Prop :=
  (is_Some promise ∧ ¬ (is_Some func ∧ is_Some a ∧ is_Some k)) ∨
  (¬ is_Some promise ∧ (is_Some func ∧ is_Some a ∧ is_Some k)).

(** ** Auxiliary definitions of the proofs *)

(** The store after an attribute write. *)
Definition upd (self : ref) (o : DelayQueue) (w : World) : World :=
  set_heap (<[self := o]> (heap w)) w.

Definition upd_mq (self : ref) (m : MessageQueue) (w : World) : World :=
  set_mq_heap (<[self := m]> (mq_heap w)) w.

(** ** Relations between stores

    [world_rel R Pev Q w w']: every object of [w] is still there in [w'] and
    is related by [R] to what it was, the log only grew, by events
    satisfying [Pev], and the registries are related by [Q]. *)
Definition world_rel (R : DelayQueue -> DelayQueue -> Prop) (Pev : Event -> Prop)
    (Q : gmap ref MessageQueue -> gmap ref MessageQueue -> Prop)
    (w w' : World) : Prop :=
  (forall x o, heap w !! x = Some o -> exists o', heap w' !! x = Some o' /\ R o o') /\
  (exists evs, log w' = log w ++ evs /\ Forall Pev evs) /\
  Q (mq_heap w) (mq_heap w').

(** A computation respects the relation when every run of it does. *)
Definition respects (R : DelayQueue -> DelayQueue -> Prop) (Pev : Event -> Prop)
    (Q : gmap ref MessageQueue -> gmap ref MessageQueue -> Prop)
    {A} (m : M A) : Prop :=
  forall w w' r, m w = (w', r) -> world_rel R Pev Q w w'.

(** The activation record of [run] and the limits are untouched. *)
Definition same_frame (o o' : DelayQueue) : Prop :=
  times o' = times o /\ thread_clock o' = thread_clock o /\
  burst_limit o' = burst_limit o /\ time_limit o' = time_limit o.

(** A shutdown request is never withdrawn. *)
Definition flag_kept (o o' : DelayQueue) : Prop :=
  __exit_req o = true -> __exit_req o' = true.

Definition any_event (e : Event) : Prop := True.
Definition any_registry (h h' : gmap ref MessageQueue) : Prop := True.



(** The two errors of [put]. *)
Definition INVALID_ARGUMENTS : Exception :=
  ValueError "You must pass either a promise or all all func, args, kwargs.".
Definition NOT_RUNNING : Exception :=
  DelayQueueError "Could not process callback in stopped thread".

(** ** Example objects *)

Definition noop : PyCallable := mkCallable 0 (fun _ _ => None).
Definition failing : PyCallable := mkCallable 1 (fun _ _ => Some (TaskError 7)).
Definition task (f : PyCallable) : Promise := Promise__init__ (Some f) (Some []) (Some []).

(** [DelayQueue(queue=q, burst_limit=B, time_limit_ms=ms)] in the empty
    store; the new queue is object 0 and its worker is started. *)
Definition demo_world (B ms : Z) (q : list (option Promise)) : World :=
  forget (DelayQueue__init__ (Some q) B ms None true None None None) world0.

Definition logging_handler : ErrorHandler := handler 1 (fun _ => None).
Definition the_dispatcher : Dispatcher := mkDispatcher 9.

(** Burst limit 3, window 1 ms, three tasks queued; the worker has processed
    the first one, 5 ticks after it started. *)
Definition three_tasks_world : World :=
  forget (run_iteration 0%nat 5)
    (demo_world 3 1 [Some (task noop); Some (task noop); Some (task noop)]).
Definition three_tasks_queue : DelayQueue :=
  mkDelayQueue "DelayQueue-1" [Some (task noop); Some (task noop)] 3 1000000
    None None _default_exception_handler false true true [5] 5.


(** Burst limit 1, window 1 s, two tasks queued. *)
Definition serial_world : World :=
  demo_world 1 1000 [Some (task noop); Some (task noop)].
Definition serial_queue : DelayQueue :=
  mkDelayQueue "DelayQueue-1" [Some (task noop); Some (task noop)] 1 1000000000
    None None _default_exception_handler false true true [] 0.

(** A running queue with the default limits, and the same after [stop()]. *)
Definition running_world : World := demo_world 30 1000 [].
Definition running_queue : DelayQueue :=
  mkDelayQueue "DelayQueue-1" [] 30 1000000000
    None None _default_exception_handler false true true [] 0.
Definition stopped_world : World := forget (DelayQueue_stop 0%nat None) running_world.
Definition stopped_queue : DelayQueue :=
  mkDelayQueue "DelayQueue-1" [None] 30 1000000000
    None None _default_exception_handler true true true [] 0.

(** [stop()] on a queue with two tasks pending. *)
Definition pending_world : World :=
  forget (DelayQueue_stop 0%nat None)
    (demo_world 30 1000 [Some (task noop); Some (task failing)]).
Definition pending_queue : DelayQueue :=
  mkDelayQueue "DelayQueue-1" [Some (task noop); Some (task failing); None]
    30 1000000000 None None _default_exception_handler true true true [] 0.

(** [MessageQueue(error_handler=logging_handler)], [set_dispatcher], and a
    queue [DelayQueue(burst_limit=5, autostart=False, name="extra")] that
    is not registered yet: the registry is object 0 of its kind, the
    built-in queues are objects 0 and 1, the new queue is object 2. *)
Definition registry_world : World :=
  forget (DelayQueue__init__ None 5 1000 None false (Some "extra") None None)
    (forget (MessageQueue_set_dispatcher 0%nat the_dispatcher)
       (forget (MessageQueue__init__ 30 1000 20 60000 None true (Some logging_handler))
          world0)).
Definition registry_object : MessageQueue :=
  mkMessageQueue true (Some the_dispatcher)
    [(DEFAULT_QUEUE, 0%nat); (GROUP_QUEUE, 1%nat)].
Definition group_queue : DelayQueue :=
  mkDelayQueue GROUP_QUEUE [] 20 60000000000 (Some 0%nat) None logging_handler
    false true true [] 0.
Definition extra_queue : DelayQueue :=
  mkDelayQueue "extra" [] 5 1000000000 None None _default_exception_handler
    false false false [] 0.

(** ... and the same after [add_delay_queue] of the new queue. *)
Definition registry_with_added_queue : World :=
  forget (MessageQueue_add_delay_queue 0%nat 2%nat) registry_world.

(** ** The decorator [queuedmessage]

    Argument values are integers ([True] is 1, [False] is 0), as in
    [PyArgs] and [PyKwargs]; the bot is passed on by its identity. *)

Record Bot := mkBot {
  bot_id : Z;
  _is_messages_queued_default : bool;
  _msg_queue : ref;
}.

(** [bool(v)] for an integer. *)
Definition py_truthy (v : Z) : bool := negb (v =? 0).

Definition of_bool (b : bool) : Z := if b then 1 else 0.

Fixpoint kwargs_get (key : string) (k : PyKwargs) : option Z :=
  match k with
  | [] => None
  | (key', v) :: k' => if bool_decide (key = key') then Some v else kwargs_get key k'
  end.

Definition kwargs_del (key : string) (k : PyKwargs) : PyKwargs :=
  filter (fun kv => kv.1 <> key) k.

(** [kwargs.pop(key, default)]: the value popped and the dict that is left. *)
Definition kwargs_pop (key : string) (default : Z) (k : PyKwargs) : Z * PyKwargs :=
  (match kwargs_get key k with Some v => v | None => default end, kwargs_del key k).

(** The parameters of [MessageQueue.put] that the call in [wrapped] gives by
    position. *)
Definition put_parameters : list string := ["self"; "func"; "delay_queue"].

(** [self._msg_queue.put(method, name, self, *args, **kwargs)]: binding the
    call to [put(self, func, delay_queue, *args, **kwargs)] raises
    [TypeError] when a keyword names a parameter already given by position. *)
Definition MessageQueue_put_call (mq : ref) (func : option PyCallable)
    (delay_queue : string) (args_ : PyArgs) (kwargs_ : PyKwargs) : M Promise :=
  if existsb (fun kv => bool_decide (kv.1 ∈ put_parameters)) kwargs_
  then raise TypeError
  else MessageQueue_put mq func delay_queue args_ kwargs_.

(** What [wrapped] returns: the promise of the queued call, or what the
    method itself returned. *)
Inductive Wrapped : Type :=
| Queued (p : Promise)
| Called.

(** [queuedmessage(method)(self, *args, **kwargs)]: the bot is given by
    position, so a keyword [self] fails the binding of the call, before the
    body runs. *)
Definition queuedmessage (method : PyCallable) (self : Bot) (args_ : PyArgs)
    (kwargs_ : PyKwargs) : M Wrapped :=
  if bool_decide ("self" ∈ kwargs_.*1) then raise TypeError else
  do _ <- emit (EvWarn "The @queuedmessage decorator is deprecated. Use the `delay_queue` parameter ofthe various bot methods instead.") ;;
  let (queued, kwargs1) :=
    kwargs_pop "queued" (of_bool (_is_messages_queued_default self)) kwargs_ in
  let (is_group, kwargs2) := kwargs_pop "isgroup" 0 kwargs1 in
  if py_truthy queued then
    if negb (py_truthy is_group) then
      do p <- MessageQueue_put_call (_msg_queue self) (Some method) DEFAULT_QUEUE
                (bot_id self :: args_) kwargs2 ;;
      ret (Queued p)
    else
      do p <- MessageQueue_put_call (_msg_queue self) (Some method) GROUP_QUEUE
                (bot_id self :: args_) kwargs2 ;;
      ret (Queued p)
  else
    match fn_call method (bot_id self :: args_) kwargs2 with
    | Some e => raise e
    | None => ret Called
    end.

(** ** Relations and observations used for the further properties *)

(** Everything [__init__] fixes for good: name, limits, parent and error
    handler. *)
Definition same_config (o o' : DelayQueue) : Prop :=
  name o' = name o /\ burst_limit o' = burst_limit o /\
  time_limit o' = time_limit o /\ parent o' = parent o /\
  exc_route o' = exc_route o.

(** A thread that was started stays started, and one that has ended stays
    ended. *)
Definition thread_order (o o' : DelayQueue) : Prop :=
  (_started o = true -> _started o' = true) /\
  (_started o = true -> _alive o = false -> _alive o' = false).

(** The promises run by the worker of [self], in the order of the runs. *)
Definition runs_of (self : ref) (l : list Event) : list Promise :=
  omap (fun e => match e with
                 | EvRun s p => if bool_decide (s = self) then Some p else None
                 | _ => None
                 end) l.

(** The sleeps of the worker of [self], in order. *)
Definition sleeps_of (self : ref) (l : list Event) : list Z :=
  omap (fun e => match e with
                 | EvSleep s d => if bool_decide (s = self) then Some d else None
                 | _ => None
                 end) l.

(** What reporting the outcome of a run raises on the worker thread, for a
    queue without parent. *)
Definition report_outcome (o : DelayQueue) (p : Promise) : Exception + unit :=
  match dispatcher o with
  | Some _ => inr tt
  | None =>
      match exception (Promise_run p) with
      | None => inr tt
      | Some e =>
          match exc_route o with
          | _default_exception_handler => inl e
          | handler _ h_call => match h_call e with
                                | Some e' => inl e'
                                | None => inr tt
                                end
          end
      end
  end.

(** The events of running and reporting one promise, for a queue without
    parent. *)
Definition report_events (self : ref) (o : DelayQueue) (p : Promise) : list Event :=
  EvRun self (Promise_run p) ::
  match dispatcher o with
  | Some d => [EvPostProcess self d (Promise_run p)]
  | None => match exception (Promise_run p) with
            | None => []
            | Some e => [EvExcRoute self (exc_route o) e]
            end
  end.

(** The store with more events in its log. *)
Definition add_logs (evs : list Event) (w : World) : World :=
  {| heap := heap w; mq_heap := mq_heap w;
     INSTANCE_COUNT := INSTANCE_COUNT w; log := log w ++ evs |}.

(** ** Further abbreviations *)

(** The sleep of one turn: none below the burst limit, else until the
    second timestamp of the window is one time limit old. *)
Definition saturation_sleep (B cutoff : Z) (ts : list Z) : list Z :=
  if bool_decide (py_len ts >= B)
  then match ts !! 1%nat with Some t1 => [t1 - cutoff] | None => [] end
  else [].

(** The errors of the constructors and of the thread. *)
Definition CONFLICTING_HANDLERS : Exception :=
  ValueError "Only one of exc_route or error_handler can be passed.".

Definition ALREADY_STARTED : Exception :=
  RuntimeError "threads can only be started once".
Definition NOT_STARTED : Exception :=
  RuntimeError "cannot join thread before it is started".

(** The warning of the decorator, and what [wrapped] reads from and leaves
    of its keyword arguments. *)
Definition DECORATOR_WARNING : Event :=
  EvWarn "The @queuedmessage decorator is deprecated. Use the `delay_queue` parameter ofthe various bot methods instead.".

Definition is_queued (self : Bot) (k : PyKwargs) : bool :=
  py_truthy (match kwargs_get "queued" k with
             | Some v => v
             | None => of_bool (_is_messages_queued_default self)
             end).

Definition is_group (k : PyKwargs) : bool :=
  py_truthy (match kwargs_get "isgroup" k with Some v => v | None => 0 end).

Definition passed_kwargs (k : PyKwargs) : PyKwargs :=
  kwargs_del "isgroup" (kwargs_del "queued" k).

(** ** Further example objects *)

(** The queue of [pending_world] after the turn of its worker that sees the
    shutdown flag: the thread has ended. *)
Definition ended_world : World := forget (worker_turn 0%nat 5) pending_world.
Definition ended_queue : DelayQueue :=
  mkDelayQueue "DelayQueue-1" [Some (task failing); None]
    30 1000000000 None None _default_exception_handler true true false [] 0.
Definition ended_world_later : World :=
  history [AStart 0%nat; APut 0%nat (Some noop) (Some []) (Some []) None;
           AWorker 0%nat 1] ended_world.

(** Burst limit 3, window 1 ms, two tasks queued. *)
Definition burst_world : World := demo_world 3 1 [Some (task noop); Some (task noop)].
Definition burst_queue : DelayQueue :=
  mkDelayQueue "DelayQueue-1" [Some (task noop); Some (task noop)] 3 1000000
    None None _default_exception_handler false true true [] 0.

(** The default limits, a failing task queued before another one. *)
Definition failing_world : World :=
  demo_world 30 1000 [Some (task failing); Some (task noop)].
Definition failing_queue : DelayQueue :=
  mkDelayQueue "DelayQueue-1" [Some (task failing); Some (task noop)]
    30 1000000000 None None _default_exception_handler false true true [] 0.

(** [MessageQueue(autostart=False)] in the empty store. *)
Definition idle_registry_world : World :=
  forget (MessageQueue__init__ 30 1000 20 60000 None false None) world0.
Definition idle_registry_object : MessageQueue :=
  mkMessageQueue false None [(DEFAULT_QUEUE, 0%nat); (GROUP_QUEUE, 1%nat)].

(** The default queue of [registry_world], and that store after a [put] on
    the group queue. *)
Definition default_queue : DelayQueue :=
  mkDelayQueue DEFAULT_QUEUE [] 30 1000000000 None None logging_handler
    false true true [] 0.
Definition forwarding_world : World :=
  forget (MessageQueue_put 0%nat (Some noop) GROUP_QUEUE [] []) registry_world.

(** [forwarding_world] and [failing_world] after the worker has dequeued
    the task and gone through the delay routine, 5 ticks after it started. *)
Definition forwarding_turn_world : World :=
  (delay_routine 1%nat 5
     (upd 1%nat (set_queue [] (set_queue [Some (task noop)] group_queue))
        forwarding_world)).1.
Definition failing_turn_world : World :=
  (delay_routine 0%nat 5
     (upd 0%nat (set_queue [Some (task noop)] failing_queue) failing_world)).1.

(** A bot that queues by default, on the registry of [registry_world]. *)
Definition demo_bot : Bot := mkBot 42 true 0%nat.

(** * Proofs *)

(** ** Running the monad *)

Lemma bind_inv {A B} (m : M A) (k : A -> M B) w w' r :
  bind m k w = (w', r) ->
  (exists e, m w = (w', inl e) /\ r = inl e) \/
  (exists w1 a, m w = (w1, inr a) /\ k a w1 = (w', r)).
Proof.
  unfold bind. destruct (m w) as [w1 [e|a]]; intros H.
  - left. exists e. by simplify_eq.
  - right. by exists w1, a.
Qed.

Lemma bind_ok {A B} (m : M A) (k : A -> M B) w w1 a :
  m w = (w1, inr a) -> bind m k w = k a w1.
Proof. unfold bind. by intros ->. Qed.

Lemma bind_raise {A B} (m : M A) (k : A -> M B) w w1 e :
  m w = (w1, inl e) -> bind m k w = (w1, inl e).
Proof. unfold bind. by intros ->. Qed.

Lemma deref_ok r o w : heap w !! r = Some o -> deref r w = (w, inr o).
Proof. unfold deref. by intros ->. Qed.

Lemma update_ok r f o w :
  heap w !! r = Some o ->
  update r f w = (set_heap (<[r := f o]> (heap w)) w, inr tt).
Proof. unfold update. by intros ->. Qed.

(** ** Relations every step of a computation respects *)

Section Respects.
Context (R : DelayQueue -> DelayQueue -> Prop) (Pev : Event -> Prop)
        (Q : gmap ref MessageQueue -> gmap ref MessageQueue -> Prop).
Hypothesis R_refl : forall o, R o o.
Hypothesis R_trans : forall a b c, R a b -> R b c -> R a c.
Hypothesis Q_refl : forall h, Q h h.
Hypothesis Q_trans : forall a b c, Q a b -> Q b c -> Q a c.

#[local] Abbreviation world_rel := (world_rel R Pev Q).
#[local] Abbreviation respects := (respects R Pev Q).

Lemma world_rel_refl w : world_rel w w.
Proof.
  repeat split; [eauto | | done].
  exists []. by rewrite app_nil_r.
Qed.

Lemma world_rel_trans w1 w2 w3 :
  world_rel w1 w2 -> world_rel w2 w3 -> world_rel w1 w3.
Proof.
  intros (H1 & (l1 & E1 & F1) & Q1) (H2 & (l2 & E2 & F2) & Q2).
  repeat split; [ | | eauto].
  - intros x o Hx. destruct (H1 x o Hx) as (o1 & Hx1 & R1).
    destruct (H2 x o1 Hx1) as (o2 & Hx2 & R2). eauto.
  - exists (l1 ++ l2). rewrite E2, E1, app_assoc. split; [done|].
    by apply Forall_app.
Qed.

Lemma respects_ret {A} (a : A) : respects (ret a).
Proof. intros w w' r [= <- _]. apply world_rel_refl. Qed.

Lemma respects_raise {A} e : respects (@raise A e).
Proof. intros w w' r [= <- _]. apply world_rel_refl. Qed.

Lemma respects_lift {A} (x : Exception + A) : respects (lift x).
Proof. intros w w' r [= <- _]. apply world_rel_refl. Qed.

Lemma respects_deref x : respects (deref x).
Proof.
  intros w w' r. unfold deref.
  destruct (heap w !! x); intros [= <- _]; apply world_rel_refl.
Qed.

Lemma respects_deref_mq x : respects (deref_mq x).
Proof.
  intros w w' r. unfold deref_mq.
  destruct (mq_heap w !! x); intros [= <- _]; apply world_rel_refl.
Qed.

Lemma respects_count : respects next_instance_count.
Proof.
  intros w w' r [= <- _]. repeat split; simpl; [eauto | | done].
  exists []. by rewrite app_nil_r.
Qed.

Lemma respects_emit e : Pev e -> respects (emit e).
Proof.
  intros He w w' r [= <- _]. repeat split; simpl; [eauto | | done].
  exists [e]. split; [done|]. by constructor.
Qed.

Lemma respects_update x f : (forall o, R o (f o)) -> respects (update x f).
Proof.
  intros Hf w w' r. unfold update.
  destruct (heap w !! x) as [o|] eqn:Hx; intros [= <- _];
    [|apply world_rel_refl].
  repeat split; simpl; [ | | done].
  - intros y oy Hy. destruct (decide (x = y)) as [->|Hne].
    + rewrite lookup_insert_eq. exists (f o). split; [done|].
      rewrite Hx in Hy. by simplify_eq.
    + rewrite lookup_insert_ne by done. eauto.
  - exists []. by rewrite app_nil_r.
Qed.

Lemma respects_new o : respects (new_DelayQueue o).
Proof.
  intros w w' r [= <- _]. repeat split; simpl; [ | | done].
  - intros y oy Hy. exists oy. split; [|done].
    rewrite lookup_insert_ne; [done|].
    intros E. pose proof (is_fresh (dom (heap w))) as Hf.
    rewrite E in Hf. apply Hf, elem_of_dom. eauto.
  - exists []. by rewrite app_nil_r.
Qed.

Lemma respects_update_mq x f :
  (forall h m, h !! x = Some m -> Q h (<[x := f m]> h)) ->
  respects (update_mq x f).
Proof.
  intros Hf w w' r. unfold update_mq.
  destruct (mq_heap w !! x) as [m|] eqn:Hx; intros [= <- _];
    [|apply world_rel_refl].
  repeat split; simpl; [eauto | | eauto].
  exists []. by rewrite app_nil_r.
Qed.

Lemma respects_new_mq m :
  (forall h, Q h (<[fresh (dom h) := m]> h)) -> respects (new_MessageQueue m).
Proof.
  intros Hf w w' r [= <- _]. repeat split; simpl; [eauto | | eauto].
  exists []. by rewrite app_nil_r.
Qed.

Lemma respects_bind {A B} (m : M A) (k : A -> M B) :
  respects m -> (forall a, respects (k a)) -> respects (bind m k).
Proof.
  intros Hm Hk w w' r H.
  destruct (bind_inv _ _ _ _ _ H) as [(e & H1 & _)|(w1 & a & H1 & H2)].
  - eapply Hm, H1.
  - eapply world_rel_trans; [eapply Hm, H1 | eapply Hk, H2].
Qed.

Lemma respects_for_each {A} (l : list A) (body : A -> M unit) :
  (forall x, respects (body x)) -> respects (for_each l body).
Proof.
  intros Hb. induction l as [|x l IH]; simpl.
  - apply respects_ret.
  - apply respects_bind; [apply Hb | intros _; apply IH].
Qed.
End Respects.

(** The methods respect every relation their attribute writes respect. *)
Section Methods.
Context (R : DelayQueue -> DelayQueue -> Prop) (Pev : Event -> Prop)
        (Q : gmap ref MessageQueue -> gmap ref MessageQueue -> Prop).
Hypothesis R_refl : forall o, R o o.
Hypothesis R_trans : forall a b c, R a b -> R b c -> R a c.
Hypothesis Q_refl : forall h, Q h h.
Hypothesis Q_trans : forall a b c, Q a b -> Q b c -> Q a c.
Hypothesis R_queue : forall q o, R o (set_queue q o).
Hypothesis R_thread : forall s a o, R o (set_thread s a o).
Hypothesis R_dispatcher : forall d o, R o (set_dispatcher_attr d o).
Hypothesis R_exit : forall o, R o (set_exit_req true o).
Hypothesis R_times : forall ts o, R o (set_times ts o).
Hypothesis R_clock : forall d o, R o (advance_clock d o).
Hypothesis Pev_warn : forall msg, Pev (EvWarn msg).
Hypothesis Q_any : forall h h', Q h h'.

#[local] Abbreviation fine := (respects R Pev Q).

Ltac resp :=
  repeat first
    [ apply respects_bind; [done .. | | intros ?]
    | by apply respects_ret
    | by apply respects_raise
    | by apply respects_lift
    | by apply respects_deref
    | by apply respects_deref_mq
    | by apply respects_count
    | by apply respects_new
    | apply respects_update; [done .. | by auto]
    | apply respects_update_mq; [done .. | by auto]
    | apply respects_new_mq; [done .. | by auto]
    | apply respects_for_each; [done .. | intros ?]
    | apply respects_emit; [done .. | by auto]
    | match goal with
      | |- respects _ _ _ (if ?b then _ else _) => destruct b
      | |- respects _ _ _ (match ?x with _ => _ end) => destruct x
      end
    | progress unfold Thread_start, Thread_is_alive, Thread_join, Thread_exit,
        Queue_put, Queue_get, perf_counter, time_sleep, call_exc_route,
        DelayQueue_put, DelayQueue_stop, DelayQueue_set_dispatcher,
        DelayQueue__init__, delay_routine, process_one, run_iteration,
        MessageQueue__init__, MessageQueue_add_delay_queue,
        MessageQueue_remove_delay_queue, MessageQueue_start,
        MessageQueue_stop, MessageQueue_put, MessageQueue_set_dispatcher ].

Lemma respects_Thread_start x : fine (Thread_start x).
Proof. resp. Qed.

Lemma respects_Thread_exit x : fine (Thread_exit x).
Proof. resp. Qed.

Lemma respects_Queue_put x i : fine (Queue_put x i).
Proof. resp. Qed.

Lemma respects_put x f a k p : fine (DelayQueue_put x f a k p).
Proof. resp. Qed.

Lemma respects_stop x t : fine (DelayQueue_stop x t).
Proof. resp. Qed.

Lemma respects_set_dispatcher x d : fine (DelayQueue_set_dispatcher x d).
Proof. resp. Qed.

Lemma respects_init q b t e s n p h : fine (DelayQueue__init__ q b t e s n p h).
Proof. resp. Qed.

Lemma respects_mq_init b1 t1 b2 t2 e s h :
  fine (MessageQueue__init__ b1 t1 b2 t2 e s h).
Proof. resp. Qed.

Lemma respects_mq_add mq q : fine (MessageQueue_add_delay_queue mq q).
Proof. resp. Qed.

Lemma respects_mq_remove mq n t : fine (MessageQueue_remove_delay_queue mq n t).
Proof. resp. Qed.

Lemma respects_mq_start mq : fine (MessageQueue_start mq).
Proof. resp. Qed.

Lemma respects_mq_stop mq t : fine (MessageQueue_stop mq t).
Proof. resp. Qed.

Lemma respects_mq_put mq f n a k : fine (MessageQueue_put mq f n a k).
Proof. resp. Qed.

Lemma respects_mq_set_dispatcher mq d : fine (MessageQueue_set_dispatcher mq d).
Proof. resp. Qed.

Section Worker.
Context (x : ref).
Hypothesis Pev_x : forall ev, ev_self ev = Some x -> Pev ev.

Lemma respects_process_one p : fine (process_one x p).
Proof. resp. Qed.

Lemma respects_delay_routine d : fine (delay_routine x d).
Proof. resp. Qed.

Lemma respects_run_iteration d : fine (run_iteration x d).
Proof. resp. Qed.

Lemma respects_worker_turn d : fine (worker_turn x d).
Proof.
  unfold worker_turn.
  apply respects_bind; [done .. | by apply respects_deref | intros o].
  destruct (_alive o); [|by apply respects_ret].
  intros w w' r H.
  destruct (run_iteration x d w) as [w1 [e|c]] eqn:Hrun;
    pose proof (respects_run_iteration d _ _ _ Hrun) as H1.
  - eapply world_rel_trans; [done .. | eapply respects_Thread_exit, H].
  - destruct c; simplify_eq; try done.
    eapply world_rel_trans; [done .. | eapply respects_Thread_exit, H].
Qed.
End Worker.

Lemma respects_forget {A} (m : M A) w :
  fine m -> world_rel R Pev Q w (forget m w).
Proof.
  intros Hm. unfold forget. destruct (m w) as [w' r] eqn:H. eapply Hm, H.
Qed.

(** Every action respects the relation, given that the events of the
    worker that acts, if one does, are allowed. *)
Lemma action_world_rel a w :
  (forall x d, a = AWorker x d -> forall ev, ev_self ev = Some x -> Pev ev) ->
  world_rel R Pev Q w (do_action a w).
Proof.
  intros Ha. destruct a; simpl; apply respects_forget.
  - apply respects_init.
  - apply respects_put.
  - apply respects_stop.
  - apply respects_Thread_start.
  - apply respects_set_dispatcher.
  - apply respects_worker_turn. by apply (Ha q latency).
  - apply respects_mq_init.
  - apply respects_mq_add.
  - apply respects_mq_remove.
  - apply respects_mq_start.
  - apply respects_mq_stop.
  - apply respects_mq_put.
  - apply respects_mq_set_dispatcher.
Qed.

Lemma history_world_rel acts : forall w,
  (forall x d, AWorker x d ∈ acts -> forall ev, ev_self ev = Some x -> Pev ev) ->
  world_rel R Pev Q w (history acts w).
Proof.
  induction acts as [|a acts IH]; intros w Ha; simpl.
  - by apply world_rel_refl.
  - eapply world_rel_trans; [done .. | apply action_world_rel | apply IH].
    + intros x d -> ev. apply (Ha x d). by left.
    + intros x d Hin. apply (Ha x d). by right.
Qed.
End Methods.

(** ** Lists the Python way *)

Lemma getitem_last {A} (l : list A) x :
  last l = Some x -> getitem l (-1) = inr x.
Proof.
  intros Hl. pose proof Hl as Hl'. rewrite last_lookup in Hl'.
  unfold getitem, py_len. simpl.
  assert (length l <> 0%nat) as Hne.
  { intros E. apply length_zero_iff_nil in E. by subst. }
  destruct (Z.ltb_spec (-1 + Z.of_nat (length l)) 0) as [?|?]; [lia|].
  replace (Z.to_nat (-1 + Z.of_nat (length l))) with (pred (length l)) by lia.
  by rewrite Hl'.
Qed.

Lemma getitem_nonneg {A} (l : list A) (i : nat) :
  getitem l (Z.of_nat i) = match l !! i with Some x => inr x | None => inl IndexError end.
Proof.
  unfold getitem.
  destruct (Z.ltb_spec (Z.of_nat i) 0) as [?|?]; [lia|].
  destruct (Z.ltb_spec (Z.of_nat i) 0) as [?|?]; [lia|].
  by rewrite Nat2Z.id.
Qed.

Lemma getitem_1 {A} (l : list A) :
  getitem l 1 = match l !! 1%nat with Some x => inr x | None => inl IndexError end.
Proof. apply (getitem_nonneg l 1). Qed.

(** The window the code computes is the one the specification describes. *)
Lemma code_window_spec now W (ts : list Z) (reset : bool) :
  (match ts with
   | [] => inr false
   | _ => match getitem ts (-1) with
          | inl e => inl e
          | inr last_t => inr (bool_decide (now - W > last_t))
          end
   end) = inr reset ->
  (if reset then [now] else filter (fun t => t >= now - W) ts ++ [now])
  = spec_window (now - W) now ts.
Proof.
  unfold spec_window. destruct (last ts) as [x|] eqn:Hl.
  - rewrite (getitem_last _ _ Hl).
    destruct ts as [|t ts']; [done|]. intros [= <-].
    destruct (bool_decide_reflect (now - W > x)), (bool_decide_reflect (x < now - W));
      try lia; [done|].
    f_equal. apply list_filter_iff. intros; lia.
  - apply last_None in Hl as ->. by intros [= <-].
Qed.

Lemma code_window_total now W (ts : list Z) :
  exists reset : bool,
    (match ts with
     | [] => inr false
     | _ => match getitem ts (-1) with
            | inl e => inl e
            | inr last_t => inr (bool_decide (now - W > last_t))
            end
     end) = @inr Exception bool reset.
Proof.
  destruct ts as [|t ts']; [by exists false|].
  destruct (last (t :: ts')) as [x|] eqn:Hl.
  - rewrite (getitem_last _ _ Hl). eauto.
  - by apply last_None in Hl.
Qed.

(** ** The store after an attribute write *)

Lemma update_upd r f o w :
  heap w !! r = Some o -> update r f w = (upd r (f o) w, inr tt).
Proof. apply update_ok. Qed.

Lemma heap_upd_eq self o w : heap (upd self o w) !! self = Some o.
Proof. apply lookup_insert_eq. Qed.

Lemma heap_upd_ne self x o w : self <> x -> heap (upd self o w) !! x = heap w !! x.
Proof. intros. by apply lookup_insert_ne. Qed.

Lemma upd_upd self o1 o2 w : upd self o2 (upd self o1 w) = upd self o2 w.
Proof. unfold upd, set_heap. simpl. by rewrite insert_insert_eq. Qed.

Lemma upd_add_log self o e w : upd self o (add_log e w) = add_log e (upd self o w).
Proof. done. Qed.

Lemma log_upd self o w : log (upd self o w) = log w.
Proof. done. Qed.

Lemma mq_heap_upd self o w : mq_heap (upd self o w) = mq_heap w.
Proof. done. Qed.

(** ** The delay routine, evaluated *)

Lemma reset_check_eval (ts : list Z) (x : Z) w :
  (match ts with
   | [] => ret false
   | _ :: _ => do last_t <- lift (getitem ts (-1)) ;; ret (bool_decide (x > last_t))
   end) w
  = (w, match ts with
        | [] => inr false
        | _ => match getitem ts (-1) with
               | inl e => inl e
               | inr last_t => inr (bool_decide (x > last_t))
               end
        end).
Proof.
  destruct ts as [|t ts']; [done|].
  unfold bind, lift, ret. by destruct (getitem (t :: ts') (-1)).
Qed.

Lemma delay_routine_eval self d w o :
  heap w !! self = Some o ->
  let now := thread_clock o + d in
  let t_delta := now - time_limit o in
  let ts := spec_window t_delta now (times o) in
  let o1 := set_times ts (advance_clock d o) in
  delay_routine self d w =
    if bool_decide (py_len ts >= burst_limit o) then
      match getitem ts 1 with
      | inl e => (upd self o1 w, inl e)
      | inr t1 =>
          if t1 - t_delta <? 0
          then (upd self o1 w, inl (ValueError "sleep length must be non-negative"))
          else (upd self (advance_clock (t1 - t_delta) o1)
                    (add_log (EvSleep self (t1 - t_delta)) w), inr tt)
      end
    else (upd self o1 w, inr tt).
Proof.
  intros Ho now t_delta ts o1.
  unfold delay_routine, perf_counter.
  rewrite (bind_ok _ _ w (upd self (advance_clock d o) w) now); cycle 1.
  { erewrite bind_ok by (by apply update_upd).
    erewrite bind_ok by apply deref_ok, heap_upd_eq. done. }
  erewrite bind_ok by apply deref_ok, heap_upd_eq.
  change (times (advance_clock d o)) with (times o).
  change (time_limit (advance_clock d o)) with (time_limit o).
  change (burst_limit (advance_clock d o)) with (burst_limit o).
  destruct (code_window_total now (time_limit o) (times o)) as [reset Hreset].
  erewrite bind_ok by (rewrite reset_check_eval; by rewrite Hreset).
  rewrite (code_window_spec _ _ _ _ Hreset). fold t_delta ts.
  erewrite bind_ok by apply update_upd, heap_upd_eq.
  rewrite upd_upd. fold o1.
  destruct (bool_decide (py_len ts >= burst_limit o)); [|done].
  unfold bind at 1, lift. destruct (getitem ts 1) as [e|t1]; [done|].
  unfold time_sleep. destruct (t1 - t_delta <? 0); [done|].
  unfold bind, emit.
  rewrite (update_upd _ _ o1) by apply heap_upd_eq.
  by rewrite upd_add_log, upd_upd.
Qed.

Lemma run_iteration_eval self d w o :
  heap w !! self = Some o ->
  run_iteration self d w =
    match _queue o with
    | [] => (w, inr Blocked)
    | item :: rest =>
        let w1 := upd self (set_queue rest o) w in
        if __exit_req o then (w1, inr Return)
        else (do _ <- delay_routine self d ;;
              do _ <- process_one self item ;; ret Continue) w1
    end.
Proof.
  intros Ho. unfold run_iteration.
  destruct (_queue o) as [|item rest] eqn:Hq.
  - erewrite bind_ok; cycle 1.
    { unfold Queue_get. erewrite bind_ok by by apply deref_ok. by rewrite Hq. }
    done.
  - erewrite bind_ok; cycle 1.
    { unfold Queue_get. erewrite bind_ok by by apply deref_ok. rewrite Hq.
      erewrite bind_ok by by apply update_upd. done. }
    cbv beta iota.
    rewrite (bind_ok (deref self) _ _ _ _ (deref_ok _ _ _ (heap_upd_eq _ _ _))).
    change (__exit_req (set_queue rest o)) with (__exit_req o).
    by destruct (__exit_req o).
Qed.

(** ** Relations on one object *)

Lemma same_frame_refl o : same_frame o o.
Proof. by repeat split. Qed.

Lemma same_frame_trans a b c : same_frame a b -> same_frame b c -> same_frame a c.
Proof. unfold same_frame. intros (?&?&?&?) (?&?&?&?). repeat split; congruence. Qed.

Lemma flag_kept_refl o : flag_kept o o.
Proof. by intros ?. Qed.

Lemma flag_kept_trans a b c : flag_kept a b -> flag_kept b c -> flag_kept a c.
Proof. unfold flag_kept. auto. Qed.

Lemma process_one_same_frame self item w w' r x o :
  process_one self item w = (w', r) -> heap w !! x = Some o ->
  exists o', heap w' !! x = Some o' /\ same_frame o o'.
Proof.
  intros H Hx.
  eapply (respects_process_one same_frame any_event any_registry) in H;
    [by apply H | apply same_frame_refl | apply same_frame_trans | done ..].
Qed.

(** What the delay routine does to the activation record of [run]. *)
Lemma delay_routine_frame self d w o w' r :
  heap w !! self = Some o ->
  delay_routine self d w = (w', r) ->
  let now := thread_clock o + d in
  let ts := spec_window (now - time_limit o) now (times o) in
  exists o', heap w' !! self = Some o' /\ times o' = ts /\
    burst_limit o' = burst_limit o /\ time_limit o' = time_limit o.
Proof.
  intros Ho Hd now ts.
  rewrite (delay_routine_eval _ _ _ _ Ho) in Hd. fold now ts in Hd.
  destruct (bool_decide_reflect (py_len ts >= burst_limit o)) as [Hsat|Hsat].
  - rewrite getitem_1 in Hd. destruct (ts !! 1%nat) as [t1|] eqn:Ht1.
    + destruct (_ <? 0); simplify_eq;
        (eexists; split; [apply heap_upd_eq|done]).
    + simplify_eq. eexists; split; [apply heap_upd_eq|done].
  - simplify_eq. eexists; split; [apply heap_upd_eq|done].
Qed.

(** What one turn of the loop does to the activation record of [run]. *)
Lemma run_iteration_frame self d w o item rest w' r :
  heap w !! self = Some o -> _queue o = item :: rest -> __exit_req o = false ->
  run_iteration self d w = (w', r) ->
  let now := thread_clock o + d in
  let ts := spec_window (now - time_limit o) now (times o) in
  exists o', heap w' !! self = Some o' /\ times o' = ts /\
    burst_limit o' = burst_limit o /\ time_limit o' = time_limit o.
Proof.
  intros Ho Hq Hex Hrun now ts.
  rewrite (run_iteration_eval _ _ _ _ Ho), Hq, Hex in Hrun. simpl in Hrun.
  set (w1 := upd self (set_queue rest o) w) in *.
  assert (heap w1 !! self = Some (set_queue rest o)) as Ho1 by apply heap_upd_eq.
  apply bind_inv in Hrun as [(e & Hd & ->)|(w2 & [] & Hd & Hrun)];
    destruct (delay_routine_frame _ _ _ _ _ _ Ho1 Hd) as (o2 & Ho2 & Ht2 & Hb2 & Hw2).
  - exists o2. by repeat split.
  - assert (exists o', heap w' !! self = Some o' /\ same_frame o2 o') as (o' & Ho' & Ht & Hc & Hb & Hw).
    { apply bind_inv in Hrun as [(e & Hp & ->)|(w3 & [] & Hp & Hret)].
      - by eapply process_one_same_frame.
      - injection Hret as <- <-. by eapply process_one_same_frame. }
    exists o'. rewrite Ht, Hb, Hw. by repeat split.
Qed.

(** ** The sliding window *)





(** ** The claims about the sliding window *)

(** C5: in every turn of the worker loop that reaches the delay routine,
    with [now] the clock reading and [cutoff = now - time_limit]: if the
    timestamp list is non-empty and its last entry is strictly older than
    [cutoff], the list becomes exactly [[now]]; otherwise it becomes the
    entries [>= cutoff], in their order, followed by [now]. *)
Theorem C5_window_maintenance self d w o item rest w' r :
  heap w !! self = Some o -> _queue o = item :: rest -> __exit_req o = false ->
  run_iteration self d w = (w', r) ->
  let now := thread_clock o + d in
  let cutoff := now - time_limit o in
  exists o', heap w' !! self = Some o' /\
    ((times o <> [] /\ exists t, last (times o) = Some t /\ t < cutoff) ->
     times o' = [now]) /\
    (~ (times o <> [] /\ exists t, last (times o) = Some t /\ t < cutoff) ->
     times o' = filter (fun t => cutoff <= t) (times o) ++ [now]).
Proof.
  intros Ho Hq Hex Hrun now cutoff.
  destruct (run_iteration_frame _ _ _ _ _ _ _ _ Ho Hq Hex Hrun) as (o' & Ho' & Ht & _).
  exists o'. split; [done|]. rewrite Ht. unfold spec_window. fold now cutoff.
  destruct (last (times o)) as [t|] eqn:Hl.
  - destruct (bool_decide_reflect (t < cutoff)) as [Hlt|Hge].
    + split; [done|]. intros []. split; [|eauto]. intros E. by rewrite E in Hl.
    + split; [|done]. intros (_ & t' & [= <-] & ?). lia.
  - split; [|done]. by intros (_ & t' & [=] & _).
Qed.

Lemma C5_window_maintenance_witness :
  exists o', heap (run_iteration 0%nat 2000000 three_tasks_world).1 !! 0%nat = Some o' /\
             times o' = [2000005].
Proof.
  destruct (C5_window_maintenance 0%nat 2000000 three_tasks_world three_tasks_queue
              (Some (task noop)) [Some (task noop)]
              (run_iteration 0%nat 2000000 three_tasks_world).1
              (run_iteration 0%nat 2000000 three_tasks_world).2)
    as (o' & Ho' & Hreset & _);
    [vm_compute; reflexivity | reflexivity | reflexivity | apply surjective_pairing |].
  exists o'. split; [exact Ho'|]. apply Hreset. split; [discriminate|].
  exists 5. split; [reflexivity|]. simpl. lia.
Defined.




(** ** Saturation and the second timestamp *)

(** With at least two timestamps allowed and a window that is not negative,
    the delay routine never fails: [times[1]] exists whenever the window is
    saturated, and the sleep is never negative. *)
Lemma delay_routine_ok self d w o :
  heap w !! self = Some o -> 2 <= burst_limit o -> 0 <= time_limit o ->
  (delay_routine self d w).2 = inr tt.
Proof.
  intros Ho HB HW. rewrite (delay_routine_eval _ _ _ _ Ho).
  set (now := thread_clock o + d). set (cutoff := now - time_limit o).
  destruct (bool_decide_reflect
              (py_len (spec_window cutoff now (times o)) >= burst_limit o))
    as [Hsat|Hsat]; [|done].
  assert (exists t1, spec_window cutoff now (times o) !! 1%nat = Some t1 /\ cutoff <= t1)
    as (t1 & Ht1 & Hge).
  { assert (forall l : list Z, 2 <= py_len (l ++ [now]) ->
              Forall (fun t => cutoff <= t) l ->
              exists t1, (l ++ [now]) !! 1%nat = Some t1 /\ cutoff <= t1) as Happ.
    { intros [|a [|b l]] Hlen Hall; unfold py_len in Hlen; simpl in *; [lia| |].
      - exists now. split; [done|]. unfold cutoff. lia.
      - exists b. split; [done|]. by inversion Hall as [|?? _ Hb]; inversion Hb. }
    assert (Forall (fun t => cutoff <= t) (filter (fun t => cutoff <= t) (times o)))
      as Hall.
    { apply Forall_forall. intros t Ht. by apply list_elem_of_filter in Ht as [? _]. }
    unfold spec_window in *.
    destruct (last (times o)); [destruct (bool_decide _)|];
      try (apply Happ; [lia|done]).
    unfold py_len in Hsat. simpl in Hsat. lia. }
  rewrite getitem_1, Ht1.
  by destruct (Z.ltb_spec (t1 - cutoff) 0) as [?|?]; [lia|].
Qed.

(** C2: the claim fails on the code for [burst_limit = 1].  The first task a
    worker with [burst_limit = 1] dequeues saturates the window with the
    single timestamp [[now]], and [times[1]] raises [IndexError]: [run]
    ends with that exception before the task is executed, forwarded or
    delayed. *)
Theorem C2_burst_limit_one_raises self d lats w o item rest :
  heap w !! self = Some o -> burst_limit o = 1 ->
  __exit_req o = false -> _queue o = item :: rest ->
  DelayQueue_run self (d :: lats) w =
    (upd self (set_times [thread_clock o + d]
                 (advance_clock d (set_queue rest (set_times [] o)))) w,
     inl IndexError).
Proof.
  intros Ho HB Hex Hq. unfold DelayQueue_run.
  erewrite bind_ok by by apply update_upd.
  simpl. erewrite bind_raise; [done|].
  erewrite run_iteration_eval by apply heap_upd_eq.
  simpl. rewrite Hq, Hex. simpl.
  erewrite bind_raise; [done|].
  erewrite delay_routine_eval by apply heap_upd_eq.
  simpl. rewrite HB. unfold spec_window. simpl.
  by rewrite !upd_upd.
Qed.

Lemma C2_burst_limit_one_raises_witness :
  DelayQueue_run 0%nat [5; 5] serial_world =
    (upd 0%nat (mkDelayQueue "DelayQueue-1" [Some (task noop)] 1 1000000000
                  None None _default_exception_handler false true true [5] 5)
         serial_world,
     inl IndexError).
Proof.
  apply (C2_burst_limit_one_raises 0%nat 5 [5] serial_world serial_queue
           (Some (task noop)) [Some (task noop)]); reflexivity.
Defined.

(** ** [put]: argument check and liveness check *)

Lemma is_not_None_Some {A} (v : option A) : is_not_None v = true <-> is_Some v.
Proof.
  destruct v; simpl; split; intros H;
    first [done | by eexists | by destruct H].
Qed.

(** The XOR test of the code is the "exactly one" of the specification. *)
Lemma args_check_spec func (a : option PyArgs) (k : option PyKwargs)
    (promise : option Promise) :
  negb (xorb (py_bool promise)
             (forallb id [is_not_None func; is_not_None a; is_not_None k])) = false
  <-> exactly_one_supplied func a k promise.
Proof.
  unfold exactly_one_supplied, py_bool.
  rewrite <- !is_not_None_Some.
  destruct func, a, k, promise; simpl; intuition congruence.
Qed.

Lemma put_invalid self func a k promise w :
  ~ exactly_one_supplied func a k promise ->
  DelayQueue_put self func a k promise w = (w, inl INVALID_ARGUMENTS).
Proof.
  intros H. unfold DelayQueue_put.
  destruct (negb _) eqn:E; [done|]. by apply args_check_spec in E.
Qed.

Lemma put_stopped self func a k promise w o :
  heap w !! self = Some o -> exactly_one_supplied func a k promise ->
  _alive o = false \/ __exit_req o = true ->
  DelayQueue_put self func a k promise w = (w, inl NOT_RUNNING).
Proof.
  intros Ho Hone Hstop. unfold DelayQueue_put.
  apply args_check_spec in Hone as ->.
  erewrite bind_ok by by apply deref_ok.
  by destruct Hstop as [-> | ->]; [|rewrite orb_true_r].
Qed.

Lemma put_running self func a k promise w o :
  heap w !! self = Some o -> exactly_one_supplied func a k promise ->
  _alive o = true -> __exit_req o = false ->
  let p := match promise with
           | Some p => p
           | None => Promise__init__ func a k
           end in
  DelayQueue_put self func a k promise w
  = (upd self (set_queue (_queue o ++ [Some p]) o) w, inr p).
Proof.
  intros Ho Hone Halive Hex p. unfold DelayQueue_put.
  apply args_check_spec in Hone as ->.
  erewrite bind_ok by by apply deref_ok.
  rewrite Halive, Hex. simpl. unfold Queue_put.
  erewrite bind_ok; [done|].
  erewrite bind_ok by by apply deref_ok.
  by apply update_upd.
Qed.

(** C3, as stated, fails: a call that supplies a promise together with
    [func] alone passes the check, and on a running queue the promise is
    enqueued and returned. *)
Lemma C3_counterexample :
  is_Some (Some (task failing)) /\ is_Some (Some noop) /\
  (DelayQueue_put 0%nat (Some noop) None None (Some (task failing)) running_world).2
    = inr (task failing) /\
  _queue <$> heap (DelayQueue_put 0%nat (Some noop) None None (Some (task failing))
                     running_world).1 !! 0%nat
    = Some [Some (task failing)].
Proof. repeat split; try by eexists. Qed.

(** C3 (amended): [put] raises [ValueError] exactly when it is not the case
    that exactly one of a promise or all three of [func], [args], [kwargs]
    was supplied, that is when a promise comes with all three, or when
    neither a promise nor all three are given; the store is then unchanged.
    A promise given with only some of [func], [args], [kwargs] passes the
    check. *)
Theorem C3_put_validation self func a k promise w :
  ((exists msg, (DelayQueue_put self func a k promise w).2 = inl (ValueError msg))
   <-> ~ exactly_one_supplied func a k promise) /\
  ((is_Some promise /\ is_Some func /\ is_Some a /\ is_Some k) \/
   (promise = None /\ ~ (is_Some func /\ is_Some a /\ is_Some k))
   <-> DelayQueue_put self func a k promise w = (w, inl INVALID_ARGUMENTS)).
Proof.
  assert ((exists msg, (DelayQueue_put self func a k promise w).2 = inl (ValueError msg))
          <-> ~ exactly_one_supplied func a k promise) as Hiff.
  { split.
    - intros [msg Hr] Hone.
      destruct (heap w !! self) as [o|] eqn:Ho.
      + destruct (_alive o) eqn:Ha, (__exit_req o) eqn:He;
          first [ by rewrite (put_running _ _ _ _ _ _ _ Ho Hone Ha He) in Hr
                | by rewrite (put_stopped _ _ _ _ _ _ _ Ho Hone) in Hr; auto ].
      + unfold DelayQueue_put in Hr. apply args_check_spec in Hone.
        rewrite Hone in Hr. unfold bind, deref in Hr. by rewrite Ho in Hr.
    - intros H. rewrite put_invalid by done. by eexists. }
  split; [done|]. split.
  - intros H. apply put_invalid. unfold exactly_one_supplied.
    destruct H as [(Hp & Hall)|(-> & Hnot)].
    + intros [[_ Hn]|[Hn _]]; auto.
    + intros [[[? ?] _]|[_ Hall]]; [done|auto].
  - intros H. assert (~ exactly_one_supplied func a k promise) as Hn.
    { apply Hiff. rewrite H. by eexists. }
    unfold exactly_one_supplied in Hn.
    destruct promise as [p|].
    + left. split; [by eexists|].
      destruct func, a, k; try (by repeat split; eexists);
        exfalso; apply Hn; left; (split; [by eexists|]);
        intros ([? ?] & [? ?] & [? ?]); done.
    + right. split; [done|]. intros Hall. apply Hn. right. split; [|done].
      by intros [? ?].
Qed.

(** C10: in [put] the argument check comes before the liveness check: on a
    queue that is stopped, was never started, or was asked to shut down, a
    call with an inconsistent combination of promise, func, args, kwargs
    raises [ValueError], not [DelayQueueError]. *)
Theorem C10_validation_before_liveness self func a k promise w o :
  heap w !! self = Some o ->
  _alive o = false \/ __exit_req o = true ->
  ~ exactly_one_supplied func a k promise ->
  DelayQueue_put self func a k promise w = (w, inl INVALID_ARGUMENTS) /\
  (DelayQueue_put self func a k promise w).2 <> inl NOT_RUNNING.
Proof.
  intros _ _ H. by rewrite put_invalid.
Qed.

Lemma C10_validation_before_liveness_witness :
  DelayQueue_put 0%nat (Some noop) (Some []) (Some []) (Some (task noop)) stopped_world
    = (stopped_world, inl INVALID_ARGUMENTS) /\
  (DelayQueue_put 0%nat (Some noop) (Some []) (Some []) (Some (task noop)) stopped_world).2
    <> inl NOT_RUNNING.
Proof.
  apply (C10_validation_before_liveness 0%nat (Some noop) (Some []) (Some [])
           (Some (task noop)) stopped_world stopped_queue).
  - reflexivity.
  - right. reflexivity.
  - intros [[_ H]|[H _]]; [apply H; repeat split; by eexists | apply H; by eexists].
Defined.

(** ** Shutdown *)

Lemma stop_eval self timeout w o :
  heap w !! self = Some o ->
  forget (DelayQueue_stop self timeout) w
  = upd self (set_queue (_queue o ++ [None]) (set_exit_req true o)) w.
Proof.
  intros Ho. unfold forget, DelayQueue_stop.
  erewrite bind_ok by by apply update_upd.
  erewrite bind_ok; cycle 1.
  { unfold Queue_put. erewrite bind_ok by apply deref_ok, heap_upd_eq.
    apply update_upd, heap_upd_eq. }
  rewrite upd_upd. unfold Thread_join.
  erewrite bind_ok by apply deref_ok, heap_upd_eq.
  by destruct (_started _).
Qed.

(** No action ever withdraws a shutdown request. *)
Lemma history_flag_kept acts w self o :
  heap w !! self = Some o -> __exit_req o = true ->
  exists o', heap (history acts w) !! self = Some o' /\ __exit_req o' = true.
Proof.
  intros Ho Hex.
  assert (world_rel flag_kept any_event any_registry w (history acts w))
    as (Hheap & _).
  { apply history_world_rel;
      first [ apply flag_kept_refl | apply flag_kept_trans | done
            | by intros; unfold flag_kept; intros; simpl ]. }
  destruct (Hheap _ _ Ho) as (o' & Ho' & Hk). exists o'. split; [done|by apply Hk].
Qed.

(** C7: on a queue whose shutdown flag is set or whose worker thread is not
    alive, every well-formed [put] raises [DelayQueueError] at once and
    leaves the store as it was; and once [stop] has been called this holds
    after any further history of calls and worker turns. *)
Theorem C7_put_after_stop self func a k promise w o :
  heap w !! self = Some o ->
  exactly_one_supplied func a k promise ->
  (_alive o = false \/ __exit_req o = true ->
   DelayQueue_put self func a k promise w = (w, inl NOT_RUNNING)) /\
  (forall timeout acts,
     let w' := history acts (forget (DelayQueue_stop self timeout) w) in
     DelayQueue_put self func a k promise w' = (w', inl NOT_RUNNING)).
Proof.
  intros Ho Hone. split.
  - by apply put_stopped.
  - intros timeout acts w'. subst w'. rewrite (stop_eval _ _ _ _ Ho).
    destruct (history_flag_kept acts
                (upd self (set_queue (_queue o ++ [None]) (set_exit_req true o)) w)
                self _ (heap_upd_eq _ _ _) eq_refl) as (o' & Ho' & Hex).
    eapply put_stopped; eauto.
Qed.

Lemma C7_put_after_stop_witness :
  DelayQueue_put 0%nat (Some noop) (Some []) (Some []) None stopped_world
  = (stopped_world, inl NOT_RUNNING) /\
  (forall timeout acts,
     let w' := history acts (forget (DelayQueue_stop 0%nat timeout) stopped_world) in
     DelayQueue_put 0%nat (Some noop) (Some []) (Some []) None w' = (w', inl NOT_RUNNING)).
Proof.
  destruct (C7_put_after_stop 0%nat (Some noop) (Some []) (Some []) None
              stopped_world stopped_queue) as [Hnow Hlater].
  - reflexivity.
  - right. split; [by intros [? ?]|]. repeat split; by eexists.
  - split; [apply Hnow; right; reflexivity | exact Hlater].
Defined.

Lemma events_of_app self l1 l2 :
  events_of self (l1 ++ l2) = events_of self l1 ++ events_of self l2.
Proof. apply filter_app. Qed.

Lemma events_of_others self evs :
  Forall (fun e => ev_self e <> Some self) evs -> events_of self evs = [].
Proof.
  induction 1 as [|e evs He _ IH]; [done|].
  unfold events_of in *. by rewrite filter_cons_False.
Qed.

(** A turn of a worker that was asked to shut down: nothing is logged and
    the request stands. *)
Lemma worker_turn_flagged self d w o :
  heap w !! self = Some o -> __exit_req o = true ->
  log (forget (worker_turn self d) w) = log w /\
  exists o', heap (forget (worker_turn self d) w) !! self = Some o' /\
             __exit_req o' = true.
Proof.
  intros Ho Hex. unfold forget, worker_turn.
  erewrite bind_ok by by apply deref_ok.
  destruct (_alive o); [|by eauto].
  rewrite (run_iteration_eval _ _ _ _ Ho).
  destruct (_queue o) as [|item rest]; [by eauto|].
  rewrite Hex. simpl. unfold Thread_exit.
  erewrite update_upd by apply heap_upd_eq. rewrite upd_upd. simpl.
  split; [done|]. rewrite lookup_insert_eq. by eauto.
Qed.

Lemma action_after_shutdown self a w o :
  heap w !! self = Some o -> __exit_req o = true ->
  events_of self (log (do_action a w)) = events_of self (log w) /\
  exists o', heap (do_action a w) !! self = Some o' /\ __exit_req o' = true.
Proof.
  intros Ho Hex.
  assert ((exists d, a = AWorker self d) \/ (forall d, a <> AWorker self d))
    as [[d ->]|Hother].
  { destruct a; try (right; intros; discriminate).
    destruct (decide (q = self)) as [->|Hne]; [left; by eexists|].
    right. intros d' [= ? _]. done. }
  - destruct (worker_turn_flagged self d w o Ho Hex) as [Hlog Hflag].
    simpl. by rewrite Hlog.
  - assert (world_rel flag_kept (fun e => ev_self e <> Some self) any_registry
              w (do_action a w)) as (Hheap & (evs & Hlog & Hevs) & _).
    { apply action_world_rel;
        first [ apply flag_kept_refl | apply flag_kept_trans | done
              | by intros; unfold flag_kept; intros; simpl
              | intros x d -> ev Hev E; apply (Hother d); congruence ]. }
    split.
    + by rewrite Hlog, events_of_app, (events_of_others _ _ Hevs), app_nil_r.
    + destruct (Hheap _ _ Ho) as (o' & Ho' & Hk). exists o'. split; [done|by apply Hk].
Qed.

Lemma history_after_shutdown self acts : forall w o,
  heap w !! self = Some o -> __exit_req o = true ->
  events_of self (log (history acts w)) = events_of self (log w).
Proof.
  induction acts as [|a acts IH]; intros w o Ho Hex; [done|]. simpl.
  destruct (action_after_shutdown self a w o Ho Hex) as (Hlog & o' & Ho' & Hex').
  by rewrite (IH _ _ Ho' Hex').
Qed.

(** C8: once the shutdown flag is set, the next dequeue of the worker
    returns from [run]: the dequeued item is dropped without a sleep, a run
    or a forward, nothing but the queue of the worker changes, and the
    thread ends.  Whatever happens afterwards, this worker never again
    executes, forwards or reports anything: what was pending stays
    unprocessed. *)
Theorem C8_shutdown_discards_pending self d w o item rest :
  heap w !! self = Some o -> __exit_req o = true -> _queue o = item :: rest ->
  run_iteration self d w = (upd self (set_queue rest o) w, inr Return) /\
  (_alive o = true ->
   forget (worker_turn self d) w
   = upd self (set_thread true false (set_queue rest o)) w) /\
  (forall acts, events_of self (log (history acts w)) = events_of self (log w)).
Proof.
  intros Ho Hex Hq. repeat split.
  - by rewrite (run_iteration_eval _ _ _ _ Ho), Hq, Hex.
  - intros Halive. unfold forget, worker_turn.
    erewrite bind_ok by by apply deref_ok.
    rewrite Halive, (run_iteration_eval _ _ _ _ Ho), Hq, Hex. simpl.
    unfold Thread_exit. erewrite update_upd by apply heap_upd_eq.
    by rewrite upd_upd.
  - intros acts. by eapply history_after_shutdown.
Qed.

Lemma C8_shutdown_discards_pending_witness :
  run_iteration 0%nat 5 pending_world
  = (upd 0%nat (set_queue [Some (task failing); None] pending_queue) pending_world,
     inr Return) /\
  forget (worker_turn 0%nat 5) pending_world
  = upd 0%nat (set_thread true false
                 (set_queue [Some (task failing); None] pending_queue))
        pending_world /\
  (forall acts, events_of 0%nat (log (history acts pending_world))
                = events_of 0%nat (log pending_world)).
Proof.
  destruct (C8_shutdown_discards_pending 0%nat 5 pending_world pending_queue
              (Some (task noop)) [Some (task failing); None])
    as (Hturn & Hexit & Hquiet); [reflexivity ..|].
  split; [exact Hturn|]. split; [apply Hexit; reflexivity | exact Hquiet].
Defined.

(** ** Dispatch *)

(** What the dispatch part of a turn does with a promise. *)
Lemma process_one_dispatch self p w o :
  heap w !! self = Some o ->
  let p' := Promise_run p in
  (forall pr, parent o = Some pr ->
     exists w2 r,
       DelayQueue_put pr None None None (Some p)
         (add_log (EvForward self pr (Some p)) w) = (w2, r) /\
       process_one self (Some p) w
         = (w2, match r with inl e => inl e | inr _ => inr tt end) /\
       log w2 = log w ++ [EvForward self pr (Some p)] /\
       (forall po, heap w !! pr = Some po -> _alive po = true ->
          __exit_req po = false ->
          heap w2 !! pr = Some (set_queue (_queue po ++ [Some p]) po))) /\
  (forall d, parent o = None -> dispatcher o = Some d ->
     process_one self (Some p) w
       = (add_log (EvPostProcess self d p') (add_log (EvRun self p') w), inr tt)) /\
  (forall e, parent o = None -> dispatcher o = None -> exception p' = Some e ->
     process_one self (Some p) w
       = (add_log (EvExcRoute self (exc_route o) e) (add_log (EvRun self p') w),
          match exc_route o with
          | _default_exception_handler => inl e
          | handler _ h_call => match h_call e with
                                | Some e' => inl e'
                                | None => inr tt
                                end
          end)) /\
  (parent o = None -> dispatcher o = None -> exception p' = None ->
     process_one self (Some p) w = (add_log (EvRun self p') w, inr tt)).
Proof.
  intros Ho p'. repeat split.
  - intros pr Hpr.
    destruct (DelayQueue_put pr None None None (Some p)
                (add_log (EvForward self pr (Some p)) w)) as [w2 r] eqn:Hput.
    exists w2, r. repeat split.
    + unfold process_one. erewrite bind_ok by by apply deref_ok.
      rewrite Hpr. unfold bind at 1, emit. unfold bind. rewrite Hput.
      by destruct r.
    + pose proof (respects_put (fun _ _ => True) (fun _ => False) any_registry) as Hresp.
      destruct (Hresp ltac:(done) ltac:(done) ltac:(done) ltac:(done) ltac:(done)
                  _ _ _ _ _ _ _ _ Hput) as (_ & (evs & Hlog & Hevs) & _).
      destruct evs as [|ev evs]; [by rewrite Hlog, app_nil_r|].
      by inversion Hevs.
    + intros po Hpo Halive Hex.
      assert (exactly_one_supplied None None None (Some p)) as Hone.
      { left. split; [by eexists|]. by intros ([? ?] & _). }
      rewrite (put_running pr None None None (Some p) _ po) in Hput; try done.
      injection Hput as <- _. apply heap_upd_eq.
  - intros d Hpr Hd. unfold process_one.
    erewrite bind_ok by by apply deref_ok. by rewrite Hpr, Hd.
  - intros e Hpr Hd He.
    unfold process_one. erewrite bind_ok by by apply deref_ok.
    rewrite Hpr, Hd. fold p'. rewrite He.
    unfold bind at 1, emit. unfold call_exc_route, bind, emit.
    destruct (exc_route o) as [|hid h_call]; [done|]. by destruct (h_call e).
  - intros Hpr Hd He. unfold process_one.
    erewrite bind_ok by by apply deref_ok. rewrite Hpr, Hd. fold p'.
    by rewrite He.
Qed.

(** The delay routine leaves the routing of the queue as it is. *)
Lemma delay_routine_routing self d w o w1 r :
  heap w !! self = Some o -> delay_routine self d w = (w1, r) ->
  exists o1, heap w1 !! self = Some o1 /\ parent o1 = parent o /\
    dispatcher o1 = dispatcher o /\ exc_route o1 = exc_route o.
Proof.
  intros Ho Hd. rewrite (delay_routine_eval _ _ _ _ Ho) in Hd.
  destruct (bool_decide _) in Hd.
  - destruct (getitem _ 1) as [e|t1] in Hd.
    + injection Hd as <- _. eexists. split; [apply heap_upd_eq|done].
    + destruct (_ <? 0) in Hd; injection Hd as <- _;
        (eexists; split; [apply heap_upd_eq|done]).
  - injection Hd as <- _. eexists. split; [apply heap_upd_eq|done].
Qed.

(** C6: for every admitted task, that is on every turn of the worker loop
    that dequeues a promise with the shutdown flag not set and gets through
    the delay routine: with a parent, the turn hands the promise to the
    parent's [put] and does nothing else with it (no run, no report);
    without a parent it runs the promise and then, if a dispatcher is set,
    hands the outcome to the dispatcher and to nobody else; otherwise, if
    the run captured an exception, calls the error handler with it, and the
    default handler re-raises it, which ends the loop. *)
Theorem C6_dispatch self d w o p rest w1 :
  heap w !! self = Some o -> _queue o = Some p :: rest -> __exit_req o = false ->
  delay_routine self d (upd self (set_queue rest o) w) = (w1, inr tt) ->
  let p' := Promise_run p in
  (forall pr, parent o = Some pr ->
     exists w2 r,
       DelayQueue_put pr None None None (Some p)
         (add_log (EvForward self pr (Some p)) w1) = (w2, r) /\
       run_iteration self d w
         = (w2, match r with inl e => inl e | inr _ => inr Continue end) /\
       log w2 = log w1 ++ [EvForward self pr (Some p)] /\
       (forall po, heap w1 !! pr = Some po -> _alive po = true ->
          __exit_req po = false ->
          heap w2 !! pr = Some (set_queue (_queue po ++ [Some p]) po))) /\
  (forall disp, parent o = None -> dispatcher o = Some disp ->
     run_iteration self d w
       = (add_log (EvPostProcess self disp p') (add_log (EvRun self p') w1),
          inr Continue)) /\
  (forall e, parent o = None -> dispatcher o = None -> exception p' = Some e ->
     run_iteration self d w
       = (add_log (EvExcRoute self (exc_route o) e) (add_log (EvRun self p') w1),
          match exc_route o with
          | _default_exception_handler => inl e
          | handler _ h_call => match h_call e with
                                | Some e' => inl e'
                                | None => inr Continue
                                end
          end)) /\
  (parent o = None -> dispatcher o = None -> exception p' = None ->
     run_iteration self d w = (add_log (EvRun self p') w1, inr Continue)).
Proof.
  intros Ho Hq Hex Hdelay p'.
  destruct (delay_routine_routing _ _ _ _ _ _ (heap_upd_eq _ _ _) Hdelay)
    as (o1 & Ho1 & Hpar & Hdisp & Hroute).
  change (parent (set_queue rest o)) with (parent o) in Hpar.
  change (dispatcher (set_queue rest o)) with (dispatcher o) in Hdisp.
  change (exc_route (set_queue rest o)) with (exc_route o) in Hroute.
  assert (run_iteration self d w
          = bind (process_one self (Some p)) (fun _ => ret Continue) w1) as Hturn.
  { rewrite (run_iteration_eval _ _ _ _ Ho), Hq, Hex. simpl.
    by erewrite bind_ok by exact Hdelay. }
  destruct (process_one_dispatch self p w1 o1 Ho1)
    as (Hforward & Hdispatch & Hreport & Hquiet).
  rewrite Hturn. unfold bind, ret. repeat split.
  - intros pr Hpr. rewrite <- Hpar in Hpr.
    destruct (Hforward pr Hpr) as (w2 & r & Hput & Hone & Hlog & Hqueue).
    exists w2, r. rewrite Hone. repeat split; try done. by destruct r.
  - intros disp Hnone Hsome. rewrite <- Hpar in Hnone. rewrite <- Hdisp in Hsome.
    by rewrite (Hdispatch disp Hnone Hsome).
  - intros e Hnone Hnodisp He. rewrite <- Hpar in Hnone. rewrite <- Hdisp in Hnodisp.
    rewrite (Hreport e Hnone Hnodisp He), Hroute.
    destruct (exc_route o) as [|hid h_call]; [done|]. by destruct (h_call e).
  - intros Hnone Hnodisp He. rewrite <- Hpar in Hnone. rewrite <- Hdisp in Hnodisp.
    by rewrite (Hquiet Hnone Hnodisp He).
Qed.

Lemma C6_dispatch_witness :
  (* the group queue of a registry forwards to the default queue *)
  (exists w2 r,
     DelayQueue_put 0%nat None None None (Some (task noop))
       (add_log (EvForward 1%nat 0%nat (Some (task noop))) forwarding_turn_world)
     = (w2, r) /\
     run_iteration 1%nat 5 forwarding_world
     = (w2, match r with inl e => inl e | inr _ => inr Continue end) /\
     log w2 = log forwarding_turn_world ++ [EvForward 1%nat 0%nat (Some (task noop))]) /\
  (* a queue without parent and dispatcher, with the default handler *)
  run_iteration 0%nat 5 failing_world
  = (add_log (EvExcRoute 0%nat _default_exception_handler (TaskError 7))
       (add_log (EvRun 0%nat (Promise_run (task failing))) failing_turn_world),
     inl (TaskError 7)).
Proof.
  split.
  - destruct (C6_dispatch 1%nat 5 forwarding_world
                (set_queue [Some (task noop)] group_queue) (task noop) []
                forwarding_turn_world) as (Hforward & _);
      [vm_compute; reflexivity | reflexivity | reflexivity | vm_compute; reflexivity |].
    destruct (Hforward 0%nat eq_refl) as (w2 & r & Hput & Hturn & Hlog & _).
    exists w2, r. split; [exact Hput|]. split; [exact Hturn | exact Hlog].
  - destruct (C6_dispatch 0%nat 5 failing_world failing_queue (task failing)
                [Some (task noop)] failing_turn_world) as (_ & _ & Hreport & _);
      [vm_compute; reflexivity | reflexivity | reflexivity | vm_compute; reflexivity |].
    apply (Hreport (TaskError 7)); reflexivity.
Defined.

(** ** The registry *)

Lemma dict_get_set k v d : dict_get k (dict_set k v d) = Some v.
Proof.
  induction d as [|[k' v'] d IH]; simpl.
  - by rewrite bool_decide_eq_true_2.
  - destruct (bool_decide_reflect (k = k')) as [->|Hne]; simpl.
    + by rewrite bool_decide_eq_true_2.
    + by rewrite bool_decide_eq_false_2.
Qed.

Lemma dict_get_values k v d : dict_get k d = Some v -> v ∈ dict_values d.
Proof.
  unfold dict_values. induction d as [|[k' v'] d IH]; simpl; [done|].
  destruct (bool_decide (k = k')).
  - intros [= ->]. by left.
  - intros H. right. by apply IH.
Qed.

Lemma deref_mq_ok r m w : mq_heap w !! r = Some m -> deref_mq r w = (w, inr m).
Proof. unfold deref_mq. by intros ->. Qed.

Lemma update_mq_ok r f m w :
  mq_heap w !! r = Some m -> update_mq r f w = (upd_mq r (f m) w, inr tt).
Proof. unfold update_mq. by intros ->. Qed.

Lemma Thread_is_alive_eval q w o :
  heap w !! q = Some o -> Thread_is_alive q w = (w, inr (_alive o)).
Proof. intros Ho. unfold Thread_is_alive. by erewrite bind_ok by by apply deref_ok. Qed.

Lemma Thread_start_eval q w o :
  heap w !! q = Some o ->
  Thread_start q w
  = if _started o then (w, inl (RuntimeError "threads can only be started once"))
    else (upd q (set_thread true true o) w, inr tt).
Proof.
  intros Ho. unfold Thread_start. erewrite bind_ok by by apply deref_ok.
  destruct (_started o); [done|]. by apply update_upd.
Qed.

Lemma set_dispatcher_eval q d w o :
  heap w !! q = Some o ->
  DelayQueue_set_dispatcher q d w = (upd q (set_dispatcher_attr (Some d) o) w, inr tt).
Proof. apply update_upd. Qed.

(** C4, as stated, fails: a registry built with an error handler does not
    keep it, and a queue added later keeps its own (here the default,
    re-raising) handler, while the built-in queues have the handler of the
    registry. *)
Lemma C4_counterexample :
  exc_route <$> heap registry_with_added_queue !! 0%nat = Some logging_handler /\
  exc_route <$> heap registry_with_added_queue !! 1%nat = Some logging_handler /\
  (dict_get "extra" ∘ _delay_queues) <$> mq_heap registry_with_added_queue !! 0%nat
    = Some (Some 2%nat) /\
  dispatcher <$> heap registry_with_added_queue !! 2%nat = Some (Some the_dispatcher) /\
  _alive <$> heap registry_with_added_queue !! 2%nat = Some true /\
  exc_route <$> heap registry_with_added_queue !! 2%nat = Some _default_exception_handler /\
  _default_exception_handler <> logging_handler.
Proof. repeat split; try (vm_compute; reflexivity). discriminate. Qed.

(** C4 (amended): [add_delay_queue] registers the queue under its name,
    gives it the dispatcher of the registry when one is set, and leaves its
    error handler alone (the registry keeps no error handler to pass on);
    when the registry is running and the queue is not alive it calls
    [start] on the queue, which makes a queue that was never started alive
    (and raises [RuntimeError] on one that was). *)
Theorem C4_add_delay_queue self q w m o :
  mq_heap w !! self = Some m -> heap w !! q = Some o ->
  let w' := forget (MessageQueue_add_delay_queue self q) w in
  let starts := running m && negb (_alive o) in
  mq_heap w' = <[self := set_delay_queues (dict_set (name o) q (_delay_queues m)) m]>
                 (mq_heap w) /\
  dict_get (name o) (dict_set (name o) q (_delay_queues m)) = Some q /\
  exists o', heap w' !! q = Some o' /\
    dispatcher o' = match mq_dispatcher m with
                    | Some d => Some d
                    | None => dispatcher o
                    end /\
    exc_route o' = exc_route o /\
    (_started o', _alive o')
      = (if starts && negb (_started o) then (true, true) else (_started o, _alive o)) /\
    (MessageQueue_add_delay_queue self q w).2
      = if starts && _started o
        then inl (RuntimeError "threads can only be started once")
        else inr tt.
Proof.
  intros Hm Ho w' starts. split; [|split; [apply dict_get_set|]].
  all: subst w' starts; unfold forget, MessageQueue_add_delay_queue.
  all: erewrite bind_ok by by apply deref_ok.
  all: erewrite bind_ok by by apply deref_mq_ok.
  all: erewrite bind_ok by by apply update_mq_ok.
  all: set (m1 := set_delay_queues (dict_set (name o) q (_delay_queues m)) m).
  all: erewrite (bind_ok (deref_mq self)) by apply deref_mq_ok, lookup_insert_eq.
  all: change (mq_dispatcher m1) with (mq_dispatcher m);
       change (running m1) with (running m).
  all: destruct (mq_dispatcher m) as [disp|].
  all: try (erewrite bind_ok by (by apply (set_dispatcher_eval q disp (upd_mq self m1 w) o));
            erewrite (bind_ok (Thread_is_alive q))
              by (apply Thread_is_alive_eval, heap_upd_eq)).
  all: try (erewrite bind_ok by done;
            erewrite (bind_ok (Thread_is_alive q))
              by (by apply (Thread_is_alive_eval q (upd_mq self m1 w) o))).
  all: simpl (_alive _).
  all: destruct (running m), (_alive o) eqn:Ha; cbn [andb negb].
  all: try (erewrite Thread_start_eval by apply heap_upd_eq).
  all: try (erewrite (Thread_start_eval q (upd_mq self m1 w) o) by done).
  all: simpl (_started _); destruct (_started o) eqn:Hs; unfold ret; cbn [fst snd andb negb].
  all: try done.
  all: rewrite ?heap_upd_eq.
  all: try change (heap (upd_mq self m1 w)) with (heap w); rewrite ?Ho.
  all: eexists; (split; [reflexivity|]); simpl; by rewrite ?Ha, ?Hs.
Qed.

Lemma C4_add_delay_queue_witness :
  mq_heap registry_with_added_queue
  = <[0%nat := set_delay_queues
                 (dict_set "extra" 2%nat (_delay_queues registry_object))
                 registry_object]> (mq_heap registry_world) /\
  dict_get "extra" (dict_set "extra" 2%nat (_delay_queues registry_object))
  = Some 2%nat /\
  exists o', heap registry_with_added_queue !! 2%nat = Some o' /\
    dispatcher o' = Some the_dispatcher /\
    exc_route o' = _default_exception_handler /\
    (_started o', _alive o') = (true, true) /\
    (MessageQueue_add_delay_queue 0%nat 2%nat registry_world).2 = inr tt.
Proof.
  apply (C4_add_delay_queue 0%nat 2%nat registry_world registry_object extra_queue);
    vm_compute; reflexivity.
Defined.

Lemma stop_returns self timeout w w' :
  DelayQueue_stop self timeout w = (w', inr tt) ->
  exists o', heap w' !! self = Some o' /\ __exit_req o' = true.
Proof.
  intros H. destruct (heap w !! self) as [o|] eqn:Ho.
  - pose proof (stop_eval self timeout w o Ho) as He.
    unfold forget in He. rewrite H in He. simpl in He. subst w'.
    eexists. split; [apply heap_upd_eq|done].
  - unfold DelayQueue_stop, bind, update in H. by rewrite Ho in H.
Qed.

Lemma for_each_stop_flags timeout l : forall w w',
  for_each l (fun q => DelayQueue_stop q timeout) w = (w', inr tt) ->
  forall q, q ∈ l -> exists o', heap w' !! q = Some o' /\ __exit_req o' = true.
Proof.
  induction l as [|x l IH]; intros w w' H q Hq; [by apply elem_of_nil in Hq|].
  simpl in H. apply bind_inv in H as [(e & _ & [=])|(w1 & [] & Hx & Hl)].
  apply elem_of_cons in Hq as [->|Hq]; [|by eapply IH].
  destruct (stop_returns _ _ _ _ Hx) as (o1 & Ho1 & Hex1).
  assert (world_rel flag_kept any_event any_registry w1 w') as (Hheap & _).
  { eapply (respects_for_each flag_kept any_event any_registry); [..|apply Hl];
      first [ apply flag_kept_refl | apply flag_kept_trans | done | idtac ].
    intros y. apply respects_stop;
      first [ apply flag_kept_refl | apply flag_kept_trans | done
            | by intros; unfold flag_kept; intros; simpl ]. }
  destruct (Hheap _ _ Ho1) as (o' & Ho' & Hk). exists o'. split; [done|by apply Hk].
Qed.

(** C9: [MessageQueue.stop] stops every registered queue (when it returns,
    each of them has its shutdown flag set) and never touches [running]:
    the registry, and with it the value of [running], is the same after
    [stop] as before, whether [stop] returns or raises. *)
Theorem C9_stop_keeps_running self timeout w m :
  mq_heap w !! self = Some m ->
  let w' := forget (MessageQueue_stop self timeout) w in
  mq_heap w' = mq_heap w /\
  running <$> mq_heap w' !! self = Some (running m) /\
  ((MessageQueue_stop self timeout w).2 = inr tt ->
   forall n q, dict_get n (_delay_queues m) = Some q ->
     exists o', heap w' !! q = Some o' /\ __exit_req o' = true).
Proof.
  intros Hm w'.
  assert (mq_heap w' = mq_heap w) as Hsame.
  { subst w'. unfold forget.
    destruct (MessageQueue_stop self timeout w) as [w1 r] eqn:Hstop.
    eapply (respects_mq_stop (fun _ _ => True) any_event eq) in Hstop;
      [|done | done | done | by intros ??? -> | done | done].
    symmetry. apply Hstop. }
  split; [done|]. split; [by rewrite Hsame, Hm|].
  intros Hret n q Hq. subst w'. unfold forget.
  destruct (MessageQueue_stop self timeout w) as [w1 r] eqn:Hstop.
  simpl in Hret. subst r. unfold MessageQueue_stop in Hstop.
  erewrite bind_ok in Hstop by by apply deref_mq_ok.
  eapply for_each_stop_flags; [apply Hstop|]. by eapply dict_get_values.
Qed.

Lemma C9_stop_keeps_running_witness :
  mq_heap (forget (MessageQueue_stop 0%nat None) registry_world)
  = mq_heap registry_world /\
  running <$> mq_heap (forget (MessageQueue_stop 0%nat None) registry_world) !! 0%nat
  = Some true /\
  (forall n q, dict_get n (_delay_queues registry_object) = Some q ->
     exists o', heap (forget (MessageQueue_stop 0%nat None) registry_world) !! q = Some o' /\
                __exit_req o' = true).
Proof.
  assert (mq_heap registry_world !! 0%nat = Some registry_object) as Hm
    by (vm_compute; reflexivity).
  destruct (C9_stop_keeps_running 0%nat None registry_world registry_object Hm)
    as (Hsame & Hrunning & Hstopped).
  split; [exact Hsame|]. split; [exact Hrunning|].
  apply Hstopped. vm_compute. reflexivity.
Defined.

(** * Further properties of the module *)

(** ** What no history changes *)

Lemma same_config_refl o : same_config o o.
Proof. by repeat split. Qed.

Lemma same_config_trans a b c : same_config a b -> same_config b c -> same_config a c.
Proof.
  unfold same_config. intros (?&?&?&?&?) (?&?&?&?&?). repeat split; congruence.
Qed.

Lemma history_same_config acts w x o :
  heap w !! x = Some o ->
  exists o', heap (history acts w) !! x = Some o' /\ same_config o o'.
Proof.
  intros Ho.
  assert (world_rel same_config any_event any_registry w (history acts w))
    as (Hheap & _).
  { apply history_world_rel;
      first [ apply same_config_refl | apply same_config_trans | done
            | by intros; repeat split ]. }
  by apply Hheap.
Qed.

(** X1: whatever is called afterwards and however the workers run, a queue
    keeps the name, the burst limit, the time limit, the parent and the
    error handler it was constructed with; no object ever leaves the store. *)
Theorem X1_configuration_is_fixed acts w x o :
  heap w !! x = Some o ->
  exists o', heap (history acts w) !! x = Some o' /\
    name o' = name o /\ burst_limit o' = burst_limit o /\
    time_limit o' = time_limit o /\ parent o' = parent o /\
    exc_route o' = exc_route o.
Proof. apply history_same_config. Qed.

Lemma X1_configuration_is_fixed_witness :
  exists o', heap (history [AMqAdd 0%nat 2%nat; AMqStop 0%nat None; AWorker 1%nat 3]
                     registry_world) !! 1%nat = Some o' /\
    name o' = GROUP_QUEUE /\ burst_limit o' = 20 /\
    time_limit o' = 60000000000 /\ parent o' = Some 0%nat /\
    exc_route o' = logging_handler.
Proof.
  apply (X1_configuration_is_fixed
           [AMqAdd 0%nat 2%nat; AMqStop 0%nat None; AWorker 1%nat 3]
           registry_world 1%nat group_queue).
  vm_compute. reflexivity.
Defined.

(** ** The life of a thread *)

Lemma thread_order_refl o : thread_order o o.
Proof. by split. Qed.

Lemma thread_order_trans a b c : thread_order a b -> thread_order b c -> thread_order a c.
Proof. unfold thread_order. intros [H1 H2] [H3 H4]. split; auto. Qed.

Lemma world_rel_upd R Pev Q x o o' w :
  (forall a, R a a) -> (forall h, Q h h) ->
  heap w !! x = Some o -> R o o' -> world_rel R Pev Q w (upd x o' w).
Proof.
  intros HR HQ Ho Hoo'. repeat split; simpl; [ | | done].
  - intros y oy Hy. destruct (decide (x = y)) as [->|Hne].
    + rewrite lookup_insert_eq. exists o'. split; [done|]. congruence.
    + rewrite lookup_insert_ne by done. eauto.
  - exists []. by rewrite app_nil_r.
Qed.

Section Lifecycle.
Context (R : DelayQueue -> DelayQueue -> Prop) (Pev : Event -> Prop)
        (Q : gmap ref MessageQueue -> gmap ref MessageQueue -> Prop).
Hypothesis R_refl : forall o, R o o.
Hypothesis R_trans : forall a b c, R a b -> R b c -> R a c.
Hypothesis Q_refl : forall h, Q h h.
Hypothesis Q_trans : forall a b c, Q a b -> Q b c -> Q a c.
Hypothesis R_queue : forall q o, R o (set_queue q o).
Hypothesis R_dispatcher : forall d o, R o (set_dispatcher_attr d o).
Hypothesis R_exit : forall o, R o (set_exit_req true o).
Hypothesis R_times : forall ts o, R o (set_times ts o).
Hypothesis R_clock : forall d o, R o (advance_clock d o).
Hypothesis R_start : forall o, _started o = false -> R o (set_thread true true o).
Hypothesis R_end : forall o, R o (set_thread true false o).
Hypothesis Pev_warn : forall msg, Pev (EvWarn msg).
Hypothesis Q_any : forall h h', Q h h'.

#[local] Abbreviation well := (respects R Pev Q).

Lemma life_Thread_start x : well (Thread_start x).
Proof.
  intros w w' r H. destruct (heap w !! x) as [o|] eqn:Ho.
  - rewrite (Thread_start_eval _ _ _ Ho) in H.
    destruct (_started o) eqn:Hs; injection H as <- _.
    + by apply world_rel_refl.
    + apply (world_rel_upd R Pev Q x o); auto.
  - unfold Thread_start, bind, deref in H. rewrite Ho in H.
    injection H as <- _. by apply world_rel_refl.
Qed.

Lemma life_Thread_exit x : well (Thread_exit x).
Proof. by apply respects_update. Qed.

Ltac life :=
  repeat first
    [ apply life_Thread_start
    | apply life_Thread_exit
    | by apply respects_put
    | by apply respects_stop
    | by apply respects_set_dispatcher
    | apply respects_bind; [done .. | | intros ?]
    | by apply respects_ret
    | by apply respects_raise
    | by apply respects_deref
    | by apply respects_deref_mq
    | by apply respects_count
    | by apply respects_new
    | apply respects_update_mq; [done .. | by auto]
    | apply respects_new_mq; [done .. | by auto]
    | apply respects_for_each; [done .. | intros ?]
    | apply respects_emit; [done .. | by auto]
    | match goal with
      | |- respects _ _ _ (if ?b then _ else _) => destruct b
      | |- respects _ _ _ (match ?x with _ => _ end) => destruct x
      end
    | progress unfold Thread_is_alive, DelayQueue__init__, MessageQueue__init__,
        MessageQueue_add_delay_queue, MessageQueue_remove_delay_queue,
        MessageQueue_start, MessageQueue_stop, MessageQueue_put,
        MessageQueue_set_dispatcher ].

Lemma life_init q b t e s n p h : well (DelayQueue__init__ q b t e s n p h).
Proof. life. Qed.

Lemma life_mq_init b1 t1 b2 t2 e s h : well (MessageQueue__init__ b1 t1 b2 t2 e s h).
Proof. life. Qed.

Lemma life_mq_add mq q : well (MessageQueue_add_delay_queue mq q).
Proof. life. Qed.

Lemma life_mq_remove mq n t : well (MessageQueue_remove_delay_queue mq n t).
Proof. life. Qed.

Lemma life_mq_start mq : well (MessageQueue_start mq).
Proof. life. Qed.

Lemma life_mq_stop mq t : well (MessageQueue_stop mq t).
Proof. life. Qed.

Lemma life_mq_put mq f n a k : well (MessageQueue_put mq f n a k).
Proof. life. Qed.

Lemma life_mq_set_dispatcher mq d : well (MessageQueue_set_dispatcher mq d).
Proof. life. Qed.

Lemma life_worker_turn x d :
  (forall ev, ev_self ev = Some x -> Pev ev) -> well (worker_turn x d).
Proof.
  intros Hx. unfold worker_turn.
  apply respects_bind; [done .. | by apply respects_deref | intros o].
  destruct (_alive o); [|by apply respects_ret].
  intros w w' r H.
  destruct (run_iteration x d w) as [w1 [e|c]] eqn:Hrun;
    pose proof (respects_run_iteration R Pev Q R_refl R_trans Q_refl Q_trans
                  R_queue R_times R_clock x Hx d _ _ _ Hrun) as H1.
  - eapply world_rel_trans; [done .. | eapply life_Thread_exit, H].
  - destruct c; simplify_eq; try done.
    eapply world_rel_trans; [done .. | eapply life_Thread_exit, H].
Qed.

Lemma life_action a w :
  (forall x d, a = AWorker x d -> forall ev, ev_self ev = Some x -> Pev ev) ->
  world_rel R Pev Q w (do_action a w).
Proof.
  intros Ha.
  assert (forall A (m : M A), well m -> world_rel R Pev Q w (forget m w)) as Hf.
  { intros A m Hm. unfold forget. destruct (m w) as [w' r] eqn:H. eapply Hm, H. }
  destruct a; simpl; apply Hf.
  - apply life_init.
  - by apply respects_put.
  - by apply respects_stop.
  - apply life_Thread_start.
  - by apply respects_set_dispatcher.
  - apply life_worker_turn. by apply (Ha q latency).
  - apply life_mq_init.
  - apply life_mq_add.
  - apply life_mq_remove.
  - apply life_mq_start.
  - apply life_mq_stop.
  - apply life_mq_put.
  - apply life_mq_set_dispatcher.
Qed.
End Lifecycle.

Lemma thread_order_action self a w o :
  heap w !! self = Some o -> _started o = true -> _alive o = false ->
  events_of self (log (do_action a w)) = events_of self (log w) /\
  exists o', heap (do_action a w) !! self = Some o' /\
             _started o' = true /\ _alive o' = false.
Proof.
  intros Ho Hs Ha.
  assert ((exists d, a = AWorker self d) \/ (forall d, a <> AWorker self d))
    as [[d ->]|Hother].
  { destruct a; try (right; intros; discriminate).
    destruct (decide (q = self)) as [->|Hne]; [left; by eexists|].
    right. intros d' [= ? _]. done. }
  - simpl. unfold forget, worker_turn.
    erewrite bind_ok by by apply deref_ok. rewrite Ha. simpl. eauto.
  - assert (world_rel thread_order (fun e => ev_self e <> Some self) any_registry
              w (do_action a w)) as (Hheap & (evs & Hlog & Hevs) & _).
    { apply life_action;
        first [ apply thread_order_refl | apply thread_order_trans | done
              | by intros; split; simpl; intros; congruence
              | intros x d -> ev Hev E; apply (Hother d); congruence ]. }
    split.
    + by rewrite Hlog, events_of_app, (events_of_others _ _ Hevs), app_nil_r.
    + destruct (Hheap _ _ Ho) as (o' & Ho' & Hk1 & Hk2). exists o'. auto.
Qed.

Lemma thread_order_history self acts : forall w o,
  heap w !! self = Some o -> _started o = true -> _alive o = false ->
  events_of self (log (history acts w)) = events_of self (log w) /\
  exists o', heap (history acts w) !! self = Some o' /\
             _started o' = true /\ _alive o' = false.
Proof.
  induction acts as [|a acts IH]; intros w o Ho Hs Ha; [by eauto|]. simpl.
  destruct (thread_order_action self a w o Ho Hs Ha) as (Hlog & o1 & Ho1 & Hs1 & Ha1).
  destruct (IH _ _ Ho1 Hs1 Ha1) as (Hlog' & Hrest). split; [congruence|done].
Qed.

(** X2: a worker thread that has ended is never revived.  Whatever is called
    afterwards: [is_alive()] stays false, [start()] raises [RuntimeError],
    the worker produces no further event (what is left in its queue is never
    processed), and every well-formed [put] raises [DelayQueueError]. *)
Theorem X2_ended_worker_stays_ended self acts w o func a k promise :
  heap w !! self = Some o -> _started o = true -> _alive o = false ->
  exactly_one_supplied func a k promise ->
  let w' := history acts w in
  events_of self (log w') = events_of self (log w) /\
  Thread_is_alive self w' = (w', inr false) /\
  Thread_start self w' = (w', inl (RuntimeError "threads can only be started once")) /\
  DelayQueue_put self func a k promise w' = (w', inl NOT_RUNNING).
Proof.
  intros Ho Hs Ha Hone w'. subst w'.
  destruct (thread_order_history self acts w o Ho Hs Ha) as (Hlog & o' & Ho' & Hs' & Ha').
  repeat split.
  - done.
  - by rewrite (Thread_is_alive_eval _ _ _ Ho'), Ha'.
  - by rewrite (Thread_start_eval _ _ _ Ho'), Hs'.
  - eapply put_stopped; eauto.
Qed.

Lemma X2_ended_worker_stays_ended_witness :
  events_of 0%nat (log ended_world_later) = events_of 0%nat (log ended_world) /\
  Thread_is_alive 0%nat ended_world_later = (ended_world_later, inr false) /\
  Thread_start 0%nat ended_world_later
    = (ended_world_later, inl (RuntimeError "threads can only be started once")) /\
  DelayQueue_put 0%nat (Some noop) (Some []) (Some []) None ended_world_later
    = (ended_world_later, inl NOT_RUNNING).
Proof.
  apply (X2_ended_worker_stays_ended 0%nat
           [AStart 0%nat; APut 0%nat (Some noop) (Some []) (Some []) None;
            AWorker 0%nat 1]
           ended_world ended_queue (Some noop) (Some []) (Some []) None).
  - vm_compute. reflexivity.
  - reflexivity.
  - reflexivity.
  - right. split; [intros [? H]; discriminate H|].
    split; [|split]; eexists; reflexivity.
Defined.

(** ** Draining a queue *)

Lemma add_log_add_logs e w : add_log e w = add_logs [e] w.
Proof. done. Qed.

Lemma add_logs_add_logs l1 l2 w : add_logs l2 (add_logs l1 w) = add_logs (l1 ++ l2) w.
Proof. unfold add_logs. simpl. by rewrite app_assoc. Qed.

Lemma add_logs_nil w : add_logs [] w = w.
Proof. destruct w. unfold add_logs. simpl. by rewrite app_nil_r. Qed.

Lemma upd_add_logs self o evs w : upd self o (add_logs evs w) = add_logs evs (upd self o w).
Proof. done. Qed.

Lemma runs_of_app self l1 l2 : runs_of self (l1 ++ l2) = runs_of self l1 ++ runs_of self l2.
Proof. apply omap_app. Qed.

Lemma sleeps_of_app self l1 l2 :
  sleeps_of self (l1 ++ l2) = sleeps_of self l1 ++ sleeps_of self l2.
Proof. apply omap_app. Qed.

Lemma runs_of_sleeps self (sl : list Z) : runs_of self (map (EvSleep self) sl) = [].
Proof. induction sl as [|s sl IH]; [done|]. simpl. apply IH. Qed.

Lemma sleeps_of_sleeps self (sl : list Z) : sleeps_of self (map (EvSleep self) sl) = sl.
Proof.
  induction sl as [|s sl IH]; [done|]. unfold sleeps_of in *. simpl.
  rewrite bool_decide_eq_true_2 by done. simpl. by f_equal.
Qed.

Lemma runs_of_report self o p : runs_of self (report_events self o p) = [Promise_run p].
Proof.
  unfold runs_of, report_events.
  destruct (dispatcher o); [|destruct (exception (Promise_run p))];
    simpl; by rewrite bool_decide_eq_true_2.
Qed.

Lemma sleeps_of_report self x o p : sleeps_of self (report_events x o p) = [].
Proof.
  unfold sleeps_of, report_events.
  by destruct (dispatcher o); [|destruct (exception (Promise_run p))].
Qed.

(** Running and reporting one promise on a queue without parent. *)
Lemma process_one_no_parent self p w o :
  heap w !! self = Some o -> parent o = None ->
  process_one self (Some p) w = (add_logs (report_events self o p) w, report_outcome o p).
Proof.
  intros Ho Hp. unfold process_one, report_events, report_outcome.
  erewrite bind_ok by by apply deref_ok. rewrite Hp.
  unfold bind at 1, emit. rewrite add_log_add_logs.
  destruct (dispatcher o) as [disp|].
  - unfold emit. by rewrite add_log_add_logs, add_logs_add_logs.
  - destruct (exception (Promise_run p)) as [e|]; [|done].
    unfold call_exc_route, bind, emit. rewrite add_log_add_logs, add_logs_add_logs.
    destruct (exc_route o) as [|hid h_call]; [done|]. by destruct (h_call e).
Qed.

Lemma spec_window_len cutoff now (ts : list Z) :
  py_len (spec_window cutoff now ts) <= py_len ts + 1.
Proof.
  unfold spec_window, py_len.
  pose proof (length_filter (fun t => cutoff <= t) ts) as Hf.
  destruct (last ts); [destruct (bool_decide _)|]; rewrite ?length_app; simpl; lia.
Qed.

Lemma delay_routine_safe self d w o :
  heap w !! self = Some o -> 2 <= burst_limit o -> 0 <= time_limit o ->
  let now := thread_clock o + d in
  let ts := spec_window (now - time_limit o) now (times o) in
  let sl := saturation_sleep (burst_limit o) (now - time_limit o) ts in
  delay_routine self d w
  = (upd self (set_times ts (advance_clock (d + foldr Z.add 0 sl) o))
       (add_logs (map (EvSleep self) sl) w), inr tt).
Proof.
  intros Ho HB HW now ts sl. rewrite (delay_routine_eval _ _ _ _ Ho).
  fold now ts. subst sl. unfold saturation_sleep.
  set (cutoff := now - time_limit o) in *.
  assert (forall s, set_times ts (advance_clock (d + s) o)
                    = advance_clock s (set_times ts (advance_clock d o))) as Hadv.
  { intros s. unfold set_times, advance_clock. simpl. f_equal. lia. }
  destruct (bool_decide_reflect (py_len ts >= burst_limit o)) as [Hsat|Hsat].
  - assert (exists t1, ts !! 1%nat = Some t1 /\ cutoff <= t1) as (t1 & Ht1 & Hge).
    { assert (forall l : list Z, 2 <= py_len (l ++ [now]) ->
                Forall (fun t => cutoff <= t) l ->
                exists t1, (l ++ [now]) !! 1%nat = Some t1 /\ cutoff <= t1) as Happ.
      { intros [|a [|b l]] Hlen Hall; unfold py_len in Hlen; simpl in *; [lia| |].
        - exists now. split; [done|]. unfold cutoff. lia.
        - exists b. split; [done|]. by inversion Hall as [|?? _ Hb]; inversion Hb. }
      assert (Forall (fun t => cutoff <= t) (filter (fun t => cutoff <= t) (times o)))
        as Hall.
      { apply Forall_forall. intros t Ht. by apply list_elem_of_filter in Ht as [? _]. }
      subst ts. unfold spec_window in *.
      destruct (last (times o)); [destruct (bool_decide _)|];
        try (apply Happ; [lia|done]).
      unfold py_len in Hsat. simpl in Hsat. lia. }
    rewrite getitem_1, Ht1.
    destruct (Z.ltb_spec (t1 - cutoff) 0) as [?|?]; [lia|].
    simpl. rewrite Z.add_0_r, Hadv. by rewrite add_log_add_logs.
  - simpl. by rewrite Z.add_0_r, add_logs_nil.
Qed.

Lemma run_loop_drain self : forall ps lats w o,
  heap w !! self = Some o -> parent o = None -> __exit_req o = false ->
  2 <= burst_limit o -> 0 <= time_limit o ->
  _queue o = map Some ps ->
  Forall (fun p => report_outcome o p = inr tt) ps ->
  (length ps < length lats)%nat ->
  exists w' o',
    run_loop self lats w = (w', inr Blocked) /\
    heap w' !! self = Some o' /\ _queue o' = [] /\
    (forall x, x <> self -> heap w' !! x = heap w !! x) /\
    runs_of self (log w') = runs_of self (log w) ++ map Promise_run ps /\
    (py_len (times o) + py_len ps < burst_limit o ->
     sleeps_of self (log w') = sleeps_of self (log w)).
Proof.
  induction ps as [|p ps IH]; intros lats w o Ho Hpar Hex HB HW Hq Hok Hlen.
  - destruct lats as [|d lats]; [simpl in Hlen; lia|].
    exists w, o. simpl. rewrite (bind_ok _ _ w w Blocked).
    + repeat split; try done. by rewrite app_nil_r.
    + by rewrite (run_iteration_eval _ _ _ _ Ho), Hq.
  - destruct lats as [|d lats]; [simpl in Hlen; lia|].
    apply Forall_cons in Hok as [Hp Hok]. simpl in Hlen.
    set (o1 := set_queue (map Some ps) o).
    set (now := thread_clock o + d).
    set (ts := spec_window (now - time_limit o) now (times o)).
    set (sl := saturation_sleep (burst_limit o) (now - time_limit o) ts).
    set (o2 := set_times ts (advance_clock (d + foldr Z.add 0 sl) o1)).
    set (w3 := add_logs (report_events self o2 p)
                 (upd self o2 (add_logs (map (EvSleep self) sl) (upd self o1 w)))).
    assert (run_iteration self d w = (w3, inr Continue)) as Hturn.
    { rewrite (run_iteration_eval _ _ _ _ Ho), Hq, Hex. simpl.
      erewrite bind_ok; cycle 1.
      { apply (delay_routine_safe self d (upd self o1 w) o1); [apply heap_upd_eq|done..]. }
      erewrite bind_ok; cycle 1.
      { rewrite (process_one_no_parent self p _ o2); [|apply heap_upd_eq|done].
        change (report_outcome o2 p) with (report_outcome o p). by rewrite Hp. }
      done. }
    assert (heap w3 !! self = Some o2) as Ho2.
    { subst w3. simpl. apply lookup_insert_eq. }
    destruct (IH lats w3 o2 Ho2) as (w' & o' & Hrun & Ho' & Hq' & Hother & Hruns & Hsl);
      try done; [lia|].
    exists w', o'. simpl. rewrite (bind_ok _ _ _ _ _ Hturn). repeat split; try done.
    + intros x Hx. rewrite (Hother x Hx). subst w3. simpl.
      by rewrite !lookup_insert_ne.
    + rewrite Hruns. subst w3. simpl.
      rewrite !runs_of_app, runs_of_sleeps, runs_of_report, app_nil_r.
      by rewrite <- app_assoc.
    + intros Hfew.
      pose proof (spec_window_len (now - time_limit o) now (times o)) as Hts.
      fold ts in Hts. unfold py_len in Hfew. simpl in Hfew.
      rewrite Hsl; cycle 1.
      { subst o2. simpl. unfold py_len in *. lia. }
      subst w3. simpl.
      rewrite !sleeps_of_app, sleeps_of_sleeps, sleeps_of_report, app_nil_r.
      subst sl. unfold saturation_sleep.
      rewrite bool_decide_eq_false_2; [by rewrite app_nil_r|].
      unfold py_len in *. lia.
Qed.

(** X3: a worker without parent, with a burst limit of at least 2 and a
    time limit that is not negative, whose reports do not raise, drains its
    queue in FIFO order: it runs every queued promise exactly once, in the
    order of the queue, then finds the queue empty and waits. *)
Theorem X3_run_is_fifo self ps lats w o :
  heap w !! self = Some o -> parent o = None -> __exit_req o = false ->
  2 <= burst_limit o -> 0 <= time_limit o ->
  _queue o = map Some ps ->
  Forall (fun p => report_outcome o p = inr tt) ps ->
  (length ps < length lats)%nat ->
  exists w' o',
    DelayQueue_run self lats w = (w', inr Blocked) /\
    heap w' !! self = Some o' /\ _queue o' = [] /\
    runs_of self (log w') = runs_of self (log w) ++ map Promise_run ps.
Proof.
  intros Ho Hpar Hex HB HW Hq Hok Hlen. unfold DelayQueue_run.
  erewrite bind_ok by by apply update_upd.
  destruct (run_loop_drain self ps lats (upd self (set_times [] o) w) (set_times [] o))
    as (w' & o' & Hrun & Ho' & Hq' & _ & Hruns & _); try done; [apply heap_upd_eq|].
  by exists w', o'.
Qed.

Lemma X3_run_is_fifo_witness :
  exists w' o',
    DelayQueue_run 0%nat [5; 5; 5] burst_world = (w', inr Blocked) /\
    heap w' !! 0%nat = Some o' /\ _queue o' = [] /\
    runs_of 0%nat (log w')
    = runs_of 0%nat (log burst_world) ++ map Promise_run [task noop; task noop].
Proof.
  apply (X3_run_is_fifo 0%nat [task noop; task noop] [5; 5; 5] burst_world burst_queue).
  - vm_compute. reflexivity.
  - reflexivity.
  - reflexivity.
  - simpl. lia.
  - simpl. lia.
  - reflexivity.
  - repeat constructor.
  - simpl. lia.
Defined.

(** X4: a burst below the limit is never delayed: a worker without parent,
    with a time limit that is not negative and reports that do not raise,
    that starts with fewer queued promises than its burst limit runs them
    all without a single sleep. *)
Theorem X4_burst_is_not_delayed self ps lats w o :
  heap w !! self = Some o -> parent o = None -> __exit_req o = false ->
  0 <= time_limit o ->
  _queue o = map Some ps ->
  Forall (fun p => report_outcome o p = inr tt) ps ->
  (length ps < length lats)%nat ->
  1 <= py_len ps < burst_limit o ->
  exists w',
    DelayQueue_run self lats w = (w', inr Blocked) /\
    runs_of self (log w') = runs_of self (log w) ++ map Promise_run ps /\
    sleeps_of self (log w') = sleeps_of self (log w).
Proof.
  intros Ho Hpar Hex HW Hq Hok Hlen Hfew. unfold DelayQueue_run.
  erewrite bind_ok by by apply update_upd.
  destruct (run_loop_drain self ps lats (upd self (set_times [] o) w) (set_times [] o))
    as (w' & o' & Hrun & Ho' & Hq' & _ & Hruns & Hsl); try done;
    [apply heap_upd_eq | simpl; lia |].
  exists w'. repeat split; try done. apply Hsl. simpl. unfold py_len at 1. simpl. lia.
Qed.

Lemma X4_burst_is_not_delayed_witness :
  exists w',
    DelayQueue_run 0%nat [5; 5; 5] burst_world = (w', inr Blocked) /\
    runs_of 0%nat (log w')
    = runs_of 0%nat (log burst_world) ++ map Promise_run [task noop; task noop] /\
    sleeps_of 0%nat (log w') = sleeps_of 0%nat (log burst_world).
Proof.
  apply (X4_burst_is_not_delayed 0%nat [task noop; task noop] [5; 5; 5]
           burst_world burst_queue).
  - vm_compute. reflexivity.
  - reflexivity.
  - reflexivity.
  - simpl. lia.
  - reflexivity.
  - repeat constructor.
  - simpl. lia.
  - unfold py_len. simpl. lia.
Defined.

(** ** Ways a worker ends *)

(** X6: when reporting the outcome of a task raises on the worker thread
    (the default handler re-raising the task's exception, or a handler that
    raises), the turn ends the thread: the task was run, the rest of the
    queue stays where it is and is never processed, and every later
    well-formed [put] raises [DelayQueueError]. *)
Theorem X6_failed_report_ends_worker self d w o p rest e acts func a k promise :
  heap w !! self = Some o -> _alive o = true -> __exit_req o = false ->
  parent o = None -> 2 <= burst_limit o -> 0 <= time_limit o ->
  _queue o = Some p :: rest -> report_outcome o p = inl e ->
  exactly_one_supplied func a k promise ->
  let w1 := forget (worker_turn self d) w in
  let w2 := history acts w1 in
  (exists o1, heap w1 !! self = Some o1 /\ _alive o1 = false /\ _queue o1 = rest) /\
  runs_of self (log w1) = runs_of self (log w) ++ [Promise_run p] /\
  events_of self (log w2) = events_of self (log w1) /\
  DelayQueue_put self func a k promise w2 = (w2, inl NOT_RUNNING).
Proof.
  intros Ho Halive Hex Hpar HB HW Hq Hrep Hone w1 w2.
  set (o1 := set_queue rest o).
  set (now := thread_clock o + d).
  set (ts := spec_window (now - time_limit o) now (times o)).
  set (sl := saturation_sleep (burst_limit o) (now - time_limit o) ts).
  set (o2 := set_times ts (advance_clock (d + foldr Z.add 0 sl) o1)).
  set (w3 := add_logs (report_events self o2 p)
               (upd self o2 (add_logs (map (EvSleep self) sl) (upd self o1 w)))).
  assert (run_iteration self d w = (w3, inl e)) as Hturn.
  { rewrite (run_iteration_eval _ _ _ _ Ho), Hq, Hex. simpl.
    erewrite bind_ok; cycle 1.
    { apply (delay_routine_safe self d (upd self o1 w) o1); [apply heap_upd_eq|done..]. }
    erewrite bind_raise; [done|].
    rewrite (process_one_no_parent self p _ o2); [|apply heap_upd_eq|done].
    change (report_outcome o2 p) with (report_outcome o p). by rewrite Hrep. }
  assert (w1 = upd self (set_thread true false o2) w3) as Hw1.
  { subst w1. unfold forget, worker_turn.
    erewrite bind_ok by by apply deref_ok. rewrite Halive, Hturn.
    unfold Thread_exit. erewrite update_upd; [done|]. subst w3. simpl.
    apply lookup_insert_eq. }
  assert (heap w1 !! self = Some (set_thread true false o2)) as Ho1.
  { rewrite Hw1. apply heap_upd_eq. }
  destruct (thread_order_history self acts w1 _ Ho1 eq_refl eq_refl)
    as (Hlog & o' & Ho' & Hs' & Ha').
  repeat split.
  - by eexists.
  - rewrite Hw1. subst w3. simpl.
    rewrite !runs_of_app, runs_of_sleeps, runs_of_report. by rewrite app_nil_r.
  - done.
  - eapply put_stopped; eauto.
Qed.

Lemma X6_failed_report_ends_worker_witness :
  (exists o1, heap (forget (worker_turn 0%nat 5) failing_world) !! 0%nat = Some o1 /\
              _alive o1 = false /\ _queue o1 = [Some (task noop)]) /\
  runs_of 0%nat (log (forget (worker_turn 0%nat 5) failing_world))
    = runs_of 0%nat (log failing_world) ++ [Promise_run (task failing)] /\
  events_of 0%nat (log (history [AWorker 0%nat 1; AStart 0%nat]
                          (forget (worker_turn 0%nat 5) failing_world)))
    = events_of 0%nat (log (forget (worker_turn 0%nat 5) failing_world)) /\
  DelayQueue_put 0%nat (Some noop) (Some []) (Some []) None
    (history [AWorker 0%nat 1; AStart 0%nat] (forget (worker_turn 0%nat 5) failing_world))
    = (history [AWorker 0%nat 1; AStart 0%nat] (forget (worker_turn 0%nat 5) failing_world),
       inl NOT_RUNNING).
Proof.
  apply (X6_failed_report_ends_worker 0%nat 5 failing_world failing_queue (task failing)
           [Some (task noop)] (TaskError 7) [AWorker 0%nat 1; AStart 0%nat]
           (Some noop) (Some []) (Some []) None).
  - vm_compute. reflexivity.
  - reflexivity.
  - reflexivity.
  - reflexivity.
  - simpl. lia.
  - simpl. lia.
  - reflexivity.
  - reflexivity.
  - right. split; [intros [? H]; discriminate H|].
    split; [|split]; eexists; reflexivity.
Defined.

(** X7: [stop()] on a queue that was never started raises [RuntimeError]
    (from [join]) after the shutdown flag is set and the sentinel is queued.
    The queue can still be started afterwards, but its worker returns at its
    first dequeue, ends, and has processed nothing. *)
Theorem X7_stop_before_start self timeout d w o :
  heap w !! self = Some o -> _started o = false ->
  let stopped := set_queue (_queue o ++ [None]) (set_exit_req true o) in
  let w1 := upd self stopped w in
  let w2 := upd self (set_thread true true stopped) w in
  DelayQueue_stop self timeout w
    = (w1, inl (RuntimeError "cannot join thread before it is started")) /\
  Thread_start self w1 = (w2, inr tt) /\
  exists o3, heap (forget (worker_turn self d) w2) !! self = Some o3 /\
    _alive o3 = false /\ __exit_req o3 = true /\
    log (forget (worker_turn self d) w2) = log w.
Proof.
  intros Ho Hs stopped w1 w2. repeat split.
  - pose proof (stop_eval self timeout w o Ho) as He. unfold forget in He.
    destruct (DelayQueue_stop self timeout w) as [w' r] eqn:Hstop.
    simpl in He. subst w'. f_equal.
    unfold DelayQueue_stop in Hstop.
    erewrite bind_ok in Hstop by by apply update_upd.
    erewrite bind_ok in Hstop; cycle 1.
    { unfold Queue_put. erewrite bind_ok by apply deref_ok, heap_upd_eq.
      apply update_upd, heap_upd_eq. }
    unfold Thread_join in Hstop.
    erewrite bind_ok in Hstop by apply deref_ok, heap_upd_eq.
    simpl in Hstop. rewrite Hs in Hstop. by injection Hstop as _ <-.
  - subst w1 w2. rewrite (Thread_start_eval self _ stopped) by apply heap_upd_eq.
    simpl. rewrite Hs. by rewrite upd_upd.
  - assert (heap w2 !! self = Some (set_thread true true stopped)) as Ho2
      by apply heap_upd_eq.
    unfold forget, worker_turn. erewrite bind_ok by by apply deref_ok.
    simpl. rewrite (run_iteration_eval _ _ _ _ Ho2). simpl.
    destruct (_queue o) as [|item rest]; simpl;
      unfold Thread_exit; (erewrite update_upd by apply heap_upd_eq);
      cbn [fst]; (eexists; split; [apply heap_upd_eq|done]).
Qed.

Lemma X7_stop_before_start_witness :
  DelayQueue_stop 2%nat None registry_world
    = (upd 2%nat (set_queue [None] (set_exit_req true extra_queue)) registry_world,
       inl (RuntimeError "cannot join thread before it is started")) /\
  Thread_start 2%nat
    (upd 2%nat (set_queue [None] (set_exit_req true extra_queue)) registry_world)
    = (upd 2%nat (set_thread true true (set_queue [None] (set_exit_req true extra_queue)))
         registry_world, inr tt) /\
  exists o3,
    heap (forget (worker_turn 2%nat 5)
            (upd 2%nat (set_thread true true
                          (set_queue [None] (set_exit_req true extra_queue)))
               registry_world)) !! 2%nat = Some o3 /\
    _alive o3 = false /\ __exit_req o3 = true /\
    log (forget (worker_turn 2%nat 5)
           (upd 2%nat (set_thread true true
                         (set_queue [None] (set_exit_req true extra_queue)))
              registry_world)) = log registry_world.
Proof.
  apply (X7_stop_before_start 2%nat None 5 registry_world extra_queue).
  - vm_compute. reflexivity.
  - reflexivity.
Defined.

(** ** The constructors *)

Lemma init_eval queue b t e s n p h w :
  py_bool e && py_bool h = false ->
  let self := fresh (dom (heap w)) in
  let o := {| name := match n with
                      | Some s => s
                      | None => "DelayQueue-" +:+ pretty (S (INSTANCE_COUNT w))
                      end;
              _queue := match queue with Some q => q | None => [] end;
              burst_limit := b; time_limit := t * TICKS_PER_MS;
              parent := p; dispatcher := None;
              exc_route := handler_or_default e h;
              __exit_req := false; _started := s; _alive := s;
              times := []; thread_clock := 0 |} in
  DelayQueue__init__ queue b t e s n p h w
  = ({| heap := <[self := o]> (heap w); mq_heap := mq_heap w;
        INSTANCE_COUNT := S (INSTANCE_COUNT w);
        log := if py_bool e
               then log w ++ [EvWarn "The exc_route argument is deprecated. Use error_handler instead."]
               else log w |},
     inr self).
Proof.
  intros Hboth self o. unfold DelayQueue__init__. rewrite Hboth.
  destruct s.
  - destruct (py_bool e); unfold bind at 1, emit, ret; unfold bind at 1,
      next_instance_count; unfold bind at 1, new_DelayQueue; simpl;
      (erewrite bind_ok;
       [| rewrite (Thread_start_eval _ _ _ (lookup_insert_eq _ _ _)); reflexivity]);
      unfold ret, upd, set_heap; simpl; by rewrite insert_insert_eq.
  - by destruct (py_bool e).
Qed.

Lemma fresh_not_in_heap (w : World) : heap w !! fresh (dom (heap w)) = None.
Proof. apply not_elem_of_dom, is_fresh. Qed.

(** X8: [DelayQueue(...)] with both [exc_route] and [error_handler] raises
    [ValueError] and leaves no trace (no object, no warning, the instance
    counter untouched).  Otherwise it never fails: the new queue gets an
    identity no object had, the other objects are untouched, the instance
    counter grows by one (also when a name is given), the handler is
    [exc_route], else [error_handler], else the re-raising default, and the
    worker is alive exactly when [autostart] is set. *)
Theorem X8_DelayQueue_init queue b t e s n p h w :
  (py_bool e && py_bool h = true ->
   DelayQueue__init__ queue b t e s n p h w = (w, inl CONFLICTING_HANDLERS)) /\
  (py_bool e && py_bool h = false ->
   exists self w' o,
     DelayQueue__init__ queue b t e s n p h w = (w', inr self) /\
     heap w !! self = None /\ heap w' !! self = Some o /\
     (forall x, x <> self -> heap w' !! x = heap w !! x) /\
     mq_heap w' = mq_heap w /\
     INSTANCE_COUNT w' = S (INSTANCE_COUNT w) /\
     name o = match n with
              | Some s => s
              | None => "DelayQueue-" +:+ pretty (S (INSTANCE_COUNT w))
              end /\
     exc_route o = match e, h with
                   | Some x, _ => x
                   | None, Some x => x
                   | None, None => _default_exception_handler
                   end /\
     burst_limit o = b /\ time_limit o = t * TICKS_PER_MS /\ parent o = p /\
     dispatcher o = None /\ __exit_req o = false /\ times o = [] /\
     _started o = s /\ _alive o = s).
Proof.
  split.
  - intros H. unfold DelayQueue__init__. by rewrite H.
  - intros H. eexists _, _, _. split; [by apply init_eval|].
    split; [apply fresh_not_in_heap|]. simpl. split; [apply lookup_insert_eq|].
    split; [intros x Hx; by apply lookup_insert_ne|].
    repeat split.
Qed.

Lemma X8_DelayQueue_init_witness :
  DelayQueue__init__ None 30 1000 (Some logging_handler) true None None
    (Some logging_handler) running_world = (running_world, inl CONFLICTING_HANDLERS) /\
  exists self w' o,
    DelayQueue__init__ None 30 1000 None false (Some "extra") None None running_world
      = (w', inr self) /\
    heap running_world !! self = None /\ heap w' !! self = Some o /\
    INSTANCE_COUNT w' = 2%nat /\ name o = "extra" /\ _alive o = false.
Proof.
  destruct (X8_DelayQueue_init None 30 1000 (Some logging_handler) true None None
              (Some logging_handler) running_world) as [Hboth _].
  destruct (X8_DelayQueue_init None 30 1000 None false (Some "extra") None None
              running_world) as [_ Hok].
  split; [apply Hboth; reflexivity|].
  destruct (Hok eq_refl) as (self & w' & o & H1 & H2 & H3 & _ & _ & H4 & H5 & _ & _ & _
                             & _ & _ & _ & _ & _ & H6).
  exists self, w', o. repeat split; assumption.
Defined.

(** X9: [MessageQueue(...)] with both [exc_route] and [error_handler] raises
    [ValueError] before any queue is created.  Otherwise it builds exactly
    two new queues: the default queue, without parent, registered as
    [DEFAULT_QUEUE], and the group queue, whose parent is the default queue,
    registered as [GROUP_QUEUE]; both get the handler that was passed (else
    the default), both are alive exactly when [autostart] is set, and
    [running] is [autostart]. *)
Theorem X9_MessageQueue_init b1 t1 b2 t2 e s h w :
  (py_bool e && py_bool h = true ->
   MessageQueue__init__ b1 t1 b2 t2 e s h w = (w, inl CONFLICTING_HANDLERS)) /\
  (py_bool e && py_bool h = false ->
   exists self w' d g od og,
     MessageQueue__init__ b1 t1 b2 t2 e s h w = (w', inr self) /\
     mq_heap w !! self = None /\
     mq_heap w' !! self
       = Some (mkMessageQueue s None [(DEFAULT_QUEUE, d); (GROUP_QUEUE, g)]) /\
     d <> g /\ heap w !! d = None /\ heap w !! g = None /\
     (forall x, x <> d -> x <> g -> heap w' !! x = heap w !! x) /\
     heap w' !! d = Some od /\ heap w' !! g = Some og /\
     parent od = None /\ parent og = Some d /\
     name od = DEFAULT_QUEUE /\ name og = GROUP_QUEUE /\
     burst_limit od = b1 /\ burst_limit og = b2 /\
     time_limit od = t1 * TICKS_PER_MS /\ time_limit og = t2 * TICKS_PER_MS /\
     exc_route od = handler_or_default e h /\ exc_route og = handler_or_default e h /\
     _alive od = s /\ _alive og = s /\
     INSTANCE_COUNT w' = S (S (INSTANCE_COUNT w))).
Proof.
  split.
  - intros H. unfold MessageQueue__init__. by rewrite H.
  - intros H. unfold MessageQueue__init__. rewrite H.
    set (d := fresh (dom (heap w))).
    assert (exists wd, (if py_bool e
                       then emit (EvWarn "The exc_route argument is deprecated. Use error_handler instead.")
                       else ret tt) w = (wd, inr tt) /\ heap wd = heap w /\
                      mq_heap wd = mq_heap w /\ INSTANCE_COUNT wd = INSTANCE_COUNT w)
      as (wd & Hwd & Hheap & Hmq & Hcount).
    { destruct (py_bool e); by eexists. }
    erewrite bind_ok by exact Hwd.
    erewrite bind_ok by (by apply init_eval).
    erewrite bind_ok by (by apply init_eval).
    unfold new_MessageQueue, set_mq_heap.
    simpl. rewrite Hheap, Hmq, Hcount. fold d.
    set (od := mkDelayQueue DEFAULT_QUEUE [] b1 (t1 * TICKS_PER_MS) None None
                 (handler_or_default None (first_handler e h)) false s s [] 0).
    set (g := fresh (dom (<[d := od]> (heap w)))).
    assert (d <> g) as Hdg.
    { intros E. pose proof (is_fresh (dom (<[d := od]> (heap w)))) as Hf.
      fold g in Hf. rewrite <- E in Hf. apply Hf. rewrite dom_insert. set_solver. }
    assert (heap w !! g = None) as Hg.
    { pose proof (is_fresh (dom (<[d := od]> (heap w)))) as Hf. fold g in Hf.
      apply not_elem_of_dom. rewrite dom_insert in Hf. set_solver. }
    assert (handler_or_default None (first_handler e h) = handler_or_default e h) as Hh
      by by destruct e, h.
    eexists _, _, d, g, _, _. split; [reflexivity|]. simpl.
    split; [apply not_elem_of_dom, is_fresh|]. split.
    { rewrite lookup_insert_eq. reflexivity. }
    split; [done|]. split; [apply fresh_not_in_heap|]. split; [done|].
    split; [intros x Hx1 Hx2; by rewrite !lookup_insert_ne|].
    split; [by rewrite lookup_insert_ne, lookup_insert_eq|].
    split; [by rewrite lookup_insert_eq|].
    by repeat split.
Qed.

Lemma X9_MessageQueue_init_witness :
  MessageQueue__init__ 30 1000 20 60000 (Some logging_handler) true
    (Some logging_handler) world0 = (world0, inl CONFLICTING_HANDLERS) /\
  exists self w' d g od og,
    MessageQueue__init__ 30 1000 20 60000 None true (Some logging_handler) world0
      = (w', inr self) /\
    mq_heap w' !! self
      = Some (mkMessageQueue true None [(DEFAULT_QUEUE, d); (GROUP_QUEUE, g)]) /\
    d <> g /\ heap w' !! d = Some od /\ heap w' !! g = Some og /\
    parent od = None /\ parent og = Some d /\
    exc_route od = logging_handler /\ exc_route og = logging_handler /\
    _alive od = true /\ _alive og = true.
Proof.
  destruct (X9_MessageQueue_init 30 1000 20 60000 (Some logging_handler) true
              (Some logging_handler) world0) as [Hboth _].
  destruct (X9_MessageQueue_init 30 1000 20 60000 None true
              (Some logging_handler) world0) as [_ Hok].
  split; [apply Hboth; reflexivity|].
  destruct (Hok eq_refl)
    as (self & w' & d & g & od & og & H1 & _ & H2 & H3 & _ & _ & _ & H4 & H5 & H6 & H7
        & _ & _ & _ & _ & _ & _ & H8 & H9 & H10 & H11 & _).
  exists self, w', d, g, od, og. repeat split; assumption.
Defined.

(** ** The registry: [start], [put], [remove_delay_queue] *)

Lemma for_each_start_fails l : forall w,
  (forall q, q ∈ l -> is_Some (heap w !! q)) ->
  (exists q o, q ∈ l /\ heap w !! q = Some o /\ _started o = true) ->
  exists w', for_each l Thread_start w = (w', inl ALREADY_STARTED) /\
             mq_heap w' = mq_heap w /\ log w' = log w.
Proof.
  induction l as [|x l IH]; intros w Hall (q & o & Hq & Ho & Hs).
  - by apply elem_of_nil in Hq.
  - destruct (Hall x) as [ox Hox]; [by left|]. simpl.
    destruct (_started ox) eqn:Hsx.
    + exists w. split; [|done]. erewrite bind_raise; [done|].
      rewrite (Thread_start_eval _ _ _ Hox). by rewrite Hsx.
    + erewrite bind_ok; cycle 1.
      { rewrite (Thread_start_eval _ _ _ Hox). by rewrite Hsx. }
      assert (q <> x) as Hne by (intros ->; congruence).
      destruct (IH (upd x (set_thread true true ox) w)) as (w' & Hrun & Hmq & Hlog).
      * intros y Hy. destruct (decide (y = x)) as [->|Hyx].
        -- rewrite heap_upd_eq. by eexists.
        -- rewrite heap_upd_ne by done. apply Hall. by right.
      * exists q, o. apply elem_of_cons in Hq as [?|Hq]; [done|].
        split; [done|]. split; [by rewrite heap_upd_ne|done].
      * exists w'. by rewrite Hrun, Hmq, Hlog.
Qed.

Lemma for_each_start_ok l : forall w,
  NoDup l ->
  (forall q, q ∈ l -> exists o, heap w !! q = Some o /\ _started o = false) ->
  exists w', for_each l Thread_start w = (w', inr tt) /\
             (forall q, q ∈ l -> exists o, heap w !! q = Some o /\
                                           heap w' !! q = Some (set_thread true true o)) /\
             (forall x, x ∉ l -> heap w' !! x = heap w !! x) /\
             mq_heap w' = mq_heap w /\ log w' = log w.
Proof.
  induction l as [|x l IH]; intros w Hnd Hall.
  - exists w. split; [done|]. split; [|done]. intros q Hq. by apply elem_of_nil in Hq.
  - apply NoDup_cons in Hnd as [Hx Hnd].
    destruct (Hall x) as (ox & Hox & Hsx); [by left|]. simpl.
    erewrite bind_ok; cycle 1.
    { rewrite (Thread_start_eval _ _ _ Hox). by rewrite Hsx. }
    destruct (IH (upd x (set_thread true true ox) w) Hnd) as (w' & Hrun & Hin & Hout & Hmq & Hlog).
    { intros q Hq. assert (q <> x) by (intros ->; done).
      rewrite heap_upd_ne by done. apply Hall. by right. }
    exists w'. split; [done|]. split; [|split].
    + intros q Hq. apply elem_of_cons in Hq as [->|Hq].
      * exists ox. split; [done|]. rewrite Hout by done. apply heap_upd_eq.
      * destruct (Hin q Hq) as (o & Ho & Ho'). assert (q <> x) by (intros ->; done).
        rewrite heap_upd_ne in Ho by done. by exists o.
    + intros y Hy. apply not_elem_of_cons in Hy as [Hyx Hy].
      rewrite Hout by done. by apply heap_upd_ne.
    + by rewrite Hmq, Hlog.
Qed.

(** X10: [MessageQueue.start()] starts every registered queue in turn and
    then sets [running].  If some registered queue was started before, as
    each built-in queue of a registry made with [autostart=True] was, the
    call raises [RuntimeError] and [running] is not set.  If no registered
    queue was started, and no queue is registered under two names, the call
    succeeds, every registered queue is alive and [running] is set. *)
Theorem X10_registry_start self m w :
  mq_heap w !! self = Some m ->
  (forall q, q ∈ dict_values (_delay_queues m) -> is_Some (heap w !! q)) ->
  ((exists q o, q ∈ dict_values (_delay_queues m) /\ heap w !! q = Some o /\
                _started o = true) ->
   exists w', MessageQueue_start self w = (w', inl ALREADY_STARTED) /\
              mq_heap w' = mq_heap w) /\
  (NoDup (dict_values (_delay_queues m)) ->
   (forall q o, q ∈ dict_values (_delay_queues m) -> heap w !! q = Some o ->
                _started o = false) ->
   exists w', MessageQueue_start self w = (w', inr tt) /\
              mq_heap w' !! self = Some (set_running true m) /\
              forall q, q ∈ dict_values (_delay_queues m) ->
                exists o, heap w !! q = Some o /\
                          heap w' !! q = Some (set_thread true true o)).
Proof.
  intros Hm Hall. split.
  - intros Hstarted.
    destruct (for_each_start_fails _ w Hall Hstarted) as (w' & Hrun & Hmq & _).
    exists w'. split; [|done]. unfold MessageQueue_start.
    erewrite bind_ok by by apply deref_mq_ok. by erewrite bind_raise.
  - intros Hnd Hnone.
    destruct (for_each_start_ok _ w Hnd) as (w' & Hrun & Hin & _ & Hmq & _).
    { intros q Hq. destruct (Hall q Hq) as [o Ho]. exists o. split; [done|]. eauto. }
    eexists. unfold MessageQueue_start.
    erewrite bind_ok by by apply deref_mq_ok. erewrite bind_ok by done.
    split; [apply update_mq_ok; by rewrite Hmq|].
    split; [apply lookup_insert_eq|]. done.
Qed.

Lemma X10_registry_start_witness :
  (exists w', MessageQueue_start 0%nat registry_world = (w', inl ALREADY_STARTED) /\
              mq_heap w' = mq_heap registry_world) /\
  (exists w', MessageQueue_start 0%nat idle_registry_world = (w', inr tt) /\
              mq_heap w' !! 0%nat = Some (set_running true idle_registry_object) /\
              forall q, q ∈ dict_values (_delay_queues idle_registry_object) ->
                exists o, heap idle_registry_world !! q = Some o /\
                          heap w' !! q = Some (set_thread true true o)).
Proof.
  split.
  - destruct (X10_registry_start 0%nat registry_object registry_world) as [Hfail _].
    + vm_compute. reflexivity.
    + intros q Hq. apply elem_of_cons in Hq as [->|Hq]; [by eexists|].
      apply elem_of_cons in Hq as [->|Hq]; [by eexists|]. by apply elem_of_nil in Hq.
    + apply Hfail. exists 1%nat, group_queue.
      split; [right; left|]. split; [vm_compute; reflexivity | reflexivity].
  - destruct (X10_registry_start 0%nat idle_registry_object idle_registry_world)
      as [_ Hok].
    + vm_compute. reflexivity.
    + intros q Hq. apply elem_of_cons in Hq as [->|Hq]; [by eexists|].
      apply elem_of_cons in Hq as [->|Hq]; [by eexists|]. by apply elem_of_nil in Hq.
    + apply Hok.
      * apply NoDup_cons. split; [intros H; apply elem_of_cons in H as [H|H];
                                [discriminate H | by apply elem_of_nil in H]|].
        apply NoDup_singleton.
      * intros q o Hq Ho. apply elem_of_cons in Hq as [->|Hq].
        { vm_compute in Ho. injection Ho as <-. reflexivity. }
        apply elem_of_cons in Hq as [->|Hq]; [|by apply elem_of_nil in Hq].
        vm_compute in Ho. injection Ho as <-. reflexivity.
Defined.

Lemma dict_get_del_ne k k' d : k' <> k -> dict_get k' (dict_del k d) = dict_get k' d.
Proof.
  intros Hne. induction d as [|[k0 v0] d IH]; simpl; [done|].
  destruct (bool_decide_reflect (k = k0)) as [<-|Hk]; simpl.
  - by rewrite bool_decide_eq_false_2.
  - by rewrite IH.
Qed.

Lemma dict_get_None k d : k ∉ d.*1 -> dict_get k d = None.
Proof.
  induction d as [|[k0 v0] d IH]; simpl; [done|].
  intros H. apply not_elem_of_cons in H as [Hk H].
  rewrite bool_decide_eq_false_2 by done. by apply IH.
Qed.

Lemma dict_get_del k d : NoDup d.*1 -> dict_get k (dict_del k d) = None.
Proof.
  induction d as [|[k0 v0] d IH]; simpl; [done|].
  intros H. apply NoDup_cons in H as [Hk H].
  destruct (bool_decide_reflect (k = k0)) as [->|Hne]; simpl.
  - by apply dict_get_None.
  - rewrite bool_decide_eq_false_2 by done. by apply IH.
Qed.

Lemma dict_get_set_ne k k' v d : k' <> k -> dict_get k' (dict_set k v d) = dict_get k' d.
Proof.
  intros Hne. induction d as [|[k0 v0] d IH]; simpl.
  - by rewrite bool_decide_eq_false_2.
  - destruct (bool_decide_reflect (k = k0)) as [<-|Hk]; simpl.
    + by rewrite !bool_decide_eq_false_2.
    + by rewrite IH.
Qed.

(** X11: [MessageQueue.put] raises
    [KeyError] for a name that is not registered, before anything else; for
    a registered name it raises [ValueError] when [func] is [None] and
    [DelayQueueError] when the queue is not running; otherwise it appends
    the promise of the call of [func] with these arguments to that queue, changes nothing
    else and returns the promise. *)
Theorem X11_registry_put self m func n a k w :
  mq_heap w !! self = Some m ->
  (dict_get n (_delay_queues m) = None ->
   MessageQueue_put self func n a k w = (w, inl (KeyError n))) /\
  (forall q o, dict_get n (_delay_queues m) = Some q -> heap w !! q = Some o ->
   MessageQueue_put self func n a k w
   = match func with
     | None => (w, inl INVALID_ARGUMENTS)
     | Some f =>
         if negb (_alive o) || __exit_req o then (w, inl NOT_RUNNING)
         else (upd q (set_queue (_queue o ++ [Some (Promise__init__ (Some f) (Some a) (Some k))]) o) w,
               inr (Promise__init__ (Some f) (Some a) (Some k)))
     end).
Proof.
  intros Hm. split.
  - intros Hn. unfold MessageQueue_put.
    erewrite bind_ok by by apply deref_mq_ok. by rewrite Hn.
  - intros q o Hn Ho. unfold MessageQueue_put.
    erewrite bind_ok by by apply deref_mq_ok. rewrite Hn.
    destruct func as [f|].
    + assert (exactly_one_supplied (Some f) (Some a) (Some k) None) as Hone.
      { unfold exactly_one_supplied. right. split; [by intros [? ?]|by repeat split]. }
      destruct (_alive o) eqn:Ha; [destruct (__exit_req o) eqn:He|]; simpl.
      * eapply put_stopped; eauto.
      * by rewrite (put_running _ _ _ _ _ _ _ Ho Hone Ha He).
      * eapply put_stopped; eauto.
    + apply put_invalid. unfold exactly_one_supplied.
      intros [[H _]|[_ [H _]]]; by destruct H.
Qed.

Lemma X11_registry_put_witness :
  MessageQueue_put 0%nat (Some noop) "nowhere" [1] [] registry_world
    = (registry_world, inl (KeyError "nowhere")) /\
  MessageQueue_put 0%nat None GROUP_QUEUE [1] [] registry_world
    = (registry_world, inl INVALID_ARGUMENTS) /\
  MessageQueue_put 0%nat (Some noop) GROUP_QUEUE [1] [] registry_world
    = (upd 1%nat (set_queue [Some (Promise__init__ (Some noop) (Some [1]) (Some []))]
                    group_queue) registry_world,
       inr (Promise__init__ (Some noop) (Some [1]) (Some []))).
Proof.
  destruct (X11_registry_put 0%nat registry_object (Some noop) "nowhere" [1] []
              registry_world) as [Hkey _]; [vm_compute; reflexivity|].
  destruct (X11_registry_put 0%nat registry_object None GROUP_QUEUE [1] []
              registry_world) as [_ Hnone]; [vm_compute; reflexivity|].
  destruct (X11_registry_put 0%nat registry_object (Some noop) GROUP_QUEUE [1] []
              registry_world) as [_ Hput]; [vm_compute; reflexivity|].
  split; [apply Hkey; reflexivity|]. split.
  - apply (Hnone 1%nat group_queue); [reflexivity | vm_compute; reflexivity].
  - apply (Hput 1%nat group_queue); [reflexivity | vm_compute; reflexivity].
Defined.

(** X12: [remove_delay_queue(name)] raises [KeyError] and changes nothing
    when the name is not registered.  For a registered name it unregisters
    the queue and keeps every other name.  It sets the shutdown flag of the
    queue exactly when the registry is running and the worker is alive, and
    leaves the queue as it is otherwise; no other queue is touched.  With no
    name registered twice, a later [put] under that name raises [KeyError].
    (Whether the worker has already ended when the call returns depends on
    the timeout of [join] and is not stated.) *)
Theorem X12_registry_remove self m n timeout w :
  mq_heap w !! self = Some m ->
  (dict_get n (_delay_queues m) = None ->
   MessageQueue_remove_delay_queue self n timeout w = (w, inl (KeyError n))) /\
  (forall q o, dict_get n (_delay_queues m) = Some q -> heap w !! q = Some o ->
   let w' := forget (MessageQueue_remove_delay_queue self n timeout) w in
   mq_heap w' !! self = Some (set_delay_queues (dict_del n (_delay_queues m)) m) /\
   (exists o', heap w' !! q = Some o' /\
               __exit_req o' = running m && _alive o || __exit_req o) /\
   (running m && _alive o = false -> heap w' !! q = Some o) /\
   (forall x, x <> q -> heap w' !! x = heap w !! x) /\
   (forall n', n' <> n ->
      dict_get n' (dict_del n (_delay_queues m)) = dict_get n' (_delay_queues m)) /\
   (NoDup (_delay_queues m).*1 ->
    forall f a k, MessageQueue_put self f n a k w' = (w', inl (KeyError n)))).
Proof.
  intros Hm. split.
  - intros Hn. unfold MessageQueue_remove_delay_queue.
    erewrite bind_ok by by apply deref_mq_ok. by rewrite Hn.
  - intros q o Hn Ho w'.
    set (m1 := set_delay_queues (dict_del n (_delay_queues m)) m).
    assert (w' = if running m && _alive o
                 then upd q (set_queue (_queue o ++ [None]) (set_exit_req true o)) (upd_mq self m1 w)
                 else upd_mq self m1 w) as Hw'.
    { subst w'. unfold forget, MessageQueue_remove_delay_queue.
      erewrite bind_ok by by apply deref_mq_ok. rewrite Hn.
      erewrite bind_ok by by apply update_mq_ok.
      erewrite bind_ok by (apply deref_mq_ok, lookup_insert_eq).
      erewrite bind_ok by by apply Thread_is_alive_eval.
      change (running (set_delay_queues _ m)) with (running m).
      destruct (running m && _alive o); [|reflexivity].
      by apply (stop_eval q timeout (upd_mq self m1 w) o). }
    assert (mq_heap w' !! self = Some m1) as Hm1.
    { rewrite Hw'. destruct (running m && _alive o); apply lookup_insert_eq. }
    split; [done|]. split; [|split; [|split; [|split]]].
    + rewrite Hw'. destruct (running m && _alive o).
      * eexists. split; [apply heap_upd_eq|done].
      * by exists o.
    + intros Hno. by rewrite Hw', Hno.
    + intros x Hx. rewrite Hw'. destruct (running m && _alive o); [|done].
      by rewrite heap_upd_ne.
    + intros n' Hn'. by apply dict_get_del_ne.
    + intros Hnd f a k. unfold MessageQueue_put.
      erewrite bind_ok by by apply deref_mq_ok.
      change (_delay_queues m1) with (dict_del n (_delay_queues m)).
      by rewrite dict_get_del.
Qed.

Lemma X12_registry_remove_witness :
  MessageQueue_remove_delay_queue 0%nat "extra" None registry_world
    = (registry_world, inl (KeyError "extra")) /\
  mq_heap (forget (MessageQueue_remove_delay_queue 0%nat GROUP_QUEUE None) registry_world)
    !! 0%nat = Some (set_delay_queues [(DEFAULT_QUEUE, 0%nat)] registry_object) /\
  (exists o', heap (forget (MessageQueue_remove_delay_queue 0%nat GROUP_QUEUE None)
                      registry_world) !! 1%nat = Some o' /\
              __exit_req o' = true) /\
  forall f a k,
    MessageQueue_put 0%nat f GROUP_QUEUE a k
      (forget (MessageQueue_remove_delay_queue 0%nat GROUP_QUEUE None) registry_world)
    = (forget (MessageQueue_remove_delay_queue 0%nat GROUP_QUEUE None) registry_world,
       inl (KeyError GROUP_QUEUE)).
Proof.
  destruct (X12_registry_remove 0%nat registry_object "extra" None registry_world)
    as [Hkey _]; [vm_compute; reflexivity|].
  destruct (X12_registry_remove 0%nat registry_object GROUP_QUEUE None registry_world)
    as [_ Hrem]; [vm_compute; reflexivity|].
  split; [apply Hkey; reflexivity|].
  destruct (Hrem 1%nat group_queue) as (Hm & Hq & _ & _ & _ & Hput);
    [reflexivity | vm_compute; reflexivity |].
  split; [exact Hm|]. split; [exact Hq|]. apply Hput.
  apply NoDup_cons. split; [|apply NoDup_singleton].
  intros H; apply elem_of_cons in H as [H|H]; [discriminate H | by apply elem_of_nil in H].
Defined.

Lemma add_delay_queue_eval self q m o w :
  mq_heap w !! self = Some m -> heap w !! q = Some o ->
  let m1 := set_delay_queues (dict_set (name o) q (_delay_queues m)) m in
  let o1 := match mq_dispatcher m with
            | Some d => set_dispatcher_attr (Some d) o
            | None => o
            end in
  let o2 := if running m && negb (_alive o) && negb (_started o)
            then set_thread true true o1 else o1 in
  forget (MessageQueue_add_delay_queue self q) w = upd q o2 (upd_mq self m1 w).
Proof.
  intros Hm Ho m1 o1 o2. unfold forget, MessageQueue_add_delay_queue.
  erewrite bind_ok by by apply deref_ok.
  erewrite bind_ok by by apply deref_mq_ok.
  erewrite bind_ok by by apply update_mq_ok.
  erewrite bind_ok by (apply deref_mq_ok, lookup_insert_eq).
  change (mq_dispatcher (set_delay_queues _ m)) with (mq_dispatcher m).
  change (running (set_delay_queues _ m)) with (running m).
  fold m1.
  assert (forall w0 : World, heap w0 !! q = Some o2 -> upd q o2 w0 = w0) as Hid.
  { intros [h0 ? ? ?] H0. unfold upd, set_heap. simpl in *. f_equal. by apply insert_id. }
  assert (exists w1, (match mq_dispatcher m with
                      | Some d => DelayQueue_set_dispatcher q d
                      | None => ret tt
                      end) (upd_mq self m1 w) = (w1, inr tt) /\
                     w1 = upd q o1 (upd_mq self m1 w)) as (w1 & Hw1 & ->).
  { subst o1. destruct (mq_dispatcher m) as [d|].
    - eexists. split; [by apply set_dispatcher_eval|done].
    - eexists. split; [done|]. symmetry.
      destruct w as [h0 ? ? ?]. unfold upd, upd_mq, set_heap, set_mq_heap. simpl in *.
      f_equal. by apply insert_id. }
  erewrite bind_ok by exact Hw1.
  erewrite bind_ok by apply Thread_is_alive_eval, heap_upd_eq.
  assert (_alive o1 = _alive o /\ _started o1 = _started o) as [Ha Hs].
  { subst o1. by destruct (mq_dispatcher m). }
  rewrite Ha. subst o2.
  destruct (running m); simpl; [|done].
  destruct (_alive o); simpl; [done|].
  rewrite (Thread_start_eval _ _ _ (heap_upd_eq _ _ _)). rewrite Hs.
  destruct (_started o); simpl; [done|]. by rewrite upd_upd.
Qed.

(** X13: after [add_delay_queue(q)], [put] under the name of [q] is [put]
    on [q] itself, and [put] under any other name goes where it went
    before.  A queue that was registered under that name before is replaced
    in the registry but not touched: it is neither stopped nor told. *)
Theorem X13_add_then_put self q m o w :
  mq_heap w !! self = Some m -> heap w !! q = Some o ->
  let w' := forget (MessageQueue_add_delay_queue self q) w in
  (forall f a k,
     MessageQueue_put self f (name o) a k w'
     = DelayQueue_put q f (Some a) (Some k) None w') /\
  (forall n f a k, n <> name o ->
     MessageQueue_put self f n a k w'
     = match dict_get n (_delay_queues m) with
       | None => (w', inl (KeyError n))
       | Some q' => DelayQueue_put q' f (Some a) (Some k) None w'
       end) /\
  (forall q', q' <> q -> heap w' !! q' = heap w !! q').
Proof.
  intros Hm Ho w'. subst w'. rewrite (add_delay_queue_eval _ _ _ _ _ Hm Ho).
  cbv zeta.
  set (m1 := set_delay_queues (dict_set (name o) q (_delay_queues m)) m).
  set (o2 := if running m && negb (_alive o) && negb (_started o) then _ else _).
  assert (mq_heap (upd q o2 (upd_mq self m1 w)) !! self = Some m1) as Hm1
    by apply lookup_insert_eq.
  split; [|split].
  - intros f a k. unfold MessageQueue_put.
    erewrite bind_ok by by apply deref_mq_ok.
    change (_delay_queues m1) with (dict_set (name o) q (_delay_queues m)).
    by rewrite dict_get_set.
  - intros n f a k Hn. unfold MessageQueue_put.
    erewrite bind_ok by by apply deref_mq_ok.
    change (_delay_queues m1) with (dict_set (name o) q (_delay_queues m)).
    rewrite dict_get_set_ne by done. by destruct (dict_get n (_delay_queues m)).
  - intros q' Hq'. by rewrite heap_upd_ne.
Qed.

Lemma X13_add_then_put_witness :
  (forall f a k,
     MessageQueue_put 0%nat f "extra" a k registry_with_added_queue
     = DelayQueue_put 2%nat f (Some a) (Some k) None registry_with_added_queue) /\
  (forall n f a k, n <> "extra" ->
     MessageQueue_put 0%nat f n a k registry_with_added_queue
     = match dict_get n (_delay_queues registry_object) with
       | None => (registry_with_added_queue, inl (KeyError n))
       | Some q' => DelayQueue_put q' f (Some a) (Some k) None registry_with_added_queue
       end) /\
  (forall q', q' <> 2%nat ->
     heap registry_with_added_queue !! q' = heap registry_world !! q').
Proof.
  apply (X13_add_then_put 0%nat 2%nat registry_object extra_queue registry_world).
  - vm_compute. reflexivity.
  - vm_compute. reflexivity.
Defined.

(** ** The decorator *)

Lemma kwargs_get_del key key' k :
  key' <> key -> kwargs_get key' (kwargs_del key k) = kwargs_get key' k.
Proof.
  intros Hne. unfold kwargs_del, PyKwargs. induction k as [|[k0 v0] k IH]; [done|].
  rewrite filter_cons. simpl. destruct (decide (k0 <> key)) as [Hk|Hk]; simpl.
  - by rewrite IH.
  - apply dec_stable in Hk as ->. by rewrite bool_decide_eq_false_2.
Qed.

Lemma kwargs_get_del_eq key k : kwargs_get key (kwargs_del key k) = None.
Proof.
  unfold kwargs_del, PyKwargs. induction k as [|[k0 v0] k IH]; [done|].
  rewrite filter_cons. simpl. destruct (decide (k0 <> key)) as [Hk|Hk]; simpl; [|done].
  by rewrite bool_decide_eq_false_2.
Qed.

Lemma kwargs_del_keys key x k :
  x ∈ (kwargs_del key k).*1 -> x ∈ k.*1.
Proof.
  unfold kwargs_del. intros H. apply list_elem_of_fmap in H as ([k0 v0] & -> & H).
  apply list_elem_of_filter in H as [_ H]. apply list_elem_of_fmap. by exists (k0, v0).
Qed.

Lemma kwargs_del_keys_2 key x k :
  x <> key -> x ∈ k.*1 -> x ∈ (kwargs_del key k).*1.
Proof.
  unfold kwargs_del. intros Hne H. apply list_elem_of_fmap in H as ([k0 v0] & -> & H).
  apply list_elem_of_fmap. exists (k0, v0). split; [done|].
  apply list_elem_of_filter. by split.
Qed.

Lemma passed_kwargs_get key k :
  key <> "queued" -> key <> "isgroup" ->
  kwargs_get key (passed_kwargs k) = kwargs_get key k.
Proof. intros H1 H2. unfold passed_kwargs. by rewrite !kwargs_get_del. Qed.

Lemma put_call_clash mq f n a k w :
  (exists key, key ∈ put_parameters /\ key ∈ k.*1) ->
  MessageQueue_put_call mq f n a k w = (w, inl TypeError).
Proof.
  intros (key & Hp & Hk). unfold MessageQueue_put_call.
  replace (existsb _ k) with true; [done|]. symmetry. apply existsb_exists.
  apply list_elem_of_fmap in Hk as (kv & -> & Hkv).
  exists kv. split; [by apply list_elem_of_In|]. by apply bool_decide_eq_true_2.
Qed.

Lemma put_call_ok mq f n a k w :
  (forall key, key ∈ put_parameters -> key ∉ k.*1) ->
  MessageQueue_put_call mq f n a k w = MessageQueue_put mq f n a k w.
Proof.
  intros Hno. unfold MessageQueue_put_call.
  destruct (existsb _ k) eqn:E; [|done].
  apply existsb_exists in E as (kv & Hin & Hkv). apply bool_decide_eq_true_1 in Hkv.
  destruct (Hno _ Hkv). apply list_elem_of_fmap. exists kv. split; [done|].
  by apply list_elem_of_In.
Qed.

Lemma queuedmessage_eval method self a k w :
  "self" ∉ k.*1 ->
  queuedmessage method self a k w
  = if is_queued self k then
      bind (MessageQueue_put_call (_msg_queue self) (Some method)
              (if is_group k then GROUP_QUEUE else DEFAULT_QUEUE)
              (bot_id self :: a) (passed_kwargs k))
           (fun p => ret (Queued p)) (add_log DECORATOR_WARNING w)
    else (add_log DECORATOR_WARNING w,
          match fn_call method (bot_id self :: a) (passed_kwargs k) with
          | Some e => inl e
          | None => inr Called
          end).
Proof.
  intros Hself. unfold queuedmessage. rewrite bool_decide_eq_false_2 by done.
  unfold bind at 1, emit. unfold kwargs_pop, is_queued, is_group, passed_kwargs.
  rewrite (kwargs_get_del "queued" "isgroup") by done.
  destruct (py_truthy (match kwargs_get "queued" k with Some _ => _ | None => _ end)).
  - by destruct (py_truthy (match kwargs_get "isgroup" k with Some _ => _ | None => _ end)).
  - by destruct (fn_call method _ _).
Qed.

(** X14: a call of a decorated method that is to be queued ([queued] given
    and true, or not given and the bot's default true), with no keyword
    named [func] or [delay_queue], does not call the method: it warns and,
    when the queue it chooses is registered and running, appends the promise
    of the call, with the bot as first argument, to that queue, the group
    queue when [isgroup] is true and the default queue otherwise, and
    returns that promise.  The keywords [queued] and [isgroup] are taken
    out; every other keyword is passed on unchanged. *)
Theorem X14_decorator_queues method self a k m q o w :
  "self" ∉ k.*1 -> "func" ∉ k.*1 -> "delay_queue" ∉ k.*1 ->
  is_queued self k = true ->
  mq_heap w !! _msg_queue self = Some m ->
  dict_get (if is_group k then GROUP_QUEUE else DEFAULT_QUEUE) (_delay_queues m) = Some q ->
  heap w !! q = Some o -> _alive o = true -> __exit_req o = false ->
  let p := Promise__init__ (Some method) (Some (bot_id self :: a))
             (Some (passed_kwargs k)) in
  queuedmessage method self a k w
  = (upd q (set_queue (_queue o ++ [Some p]) o) (add_log DECORATOR_WARNING w),
     inr (Queued p)) /\
  kwargs_get "queued" (passed_kwargs k) = None /\
  kwargs_get "isgroup" (passed_kwargs k) = None /\
  (forall key, key <> "queued" -> key <> "isgroup" ->
     kwargs_get key (passed_kwargs k) = kwargs_get key k).
Proof.
  intros Hself Hfunc Hdq Hqueued Hm Hq Ho Halive Hexit p. split; [|split; [|split]].
  - rewrite queuedmessage_eval by done. rewrite Hqueued.
    erewrite bind_ok; [reflexivity|].
    rewrite put_call_ok.
    + assert (heap (add_log DECORATOR_WARNING w) !! q = Some o) as Ho' by done.
      assert (mq_heap (add_log DECORATOR_WARNING w) !! _msg_queue self = Some m) as Hm'
        by done.
      unfold MessageQueue_put. erewrite bind_ok by by apply deref_mq_ok.
      rewrite Hq. eapply put_running; eauto.
      unfold exactly_one_supplied. right. split; [by intros [? ?]|by repeat split].
    + intros key Hkey Hin. unfold passed_kwargs in Hin.
      do 2 apply kwargs_del_keys in Hin. unfold put_parameters in Hkey.
      repeat (apply elem_of_cons in Hkey as [->|Hkey]; [done|]).
      by apply elem_of_nil in Hkey.
  - unfold passed_kwargs. rewrite kwargs_get_del by done. apply kwargs_get_del_eq.
  - apply kwargs_get_del_eq.
  - intros key H1 H2. by apply passed_kwargs_get.
Qed.

Lemma X14_decorator_queues_witness :
  queuedmessage noop demo_bot [7] [("isgroup", 1); ("text", 5)] registry_world
  = (upd 1%nat
       (set_queue [Some (Promise__init__ (Some noop) (Some [42; 7]) (Some [("text", 5)]))]
          group_queue)
       (add_log DECORATOR_WARNING registry_world),
     inr (Queued (Promise__init__ (Some noop) (Some [42; 7]) (Some [("text", 5)])))).
Proof.
  destruct (X14_decorator_queues noop demo_bot [7] [("isgroup", 1); ("text", 5)]
              registry_object 1%nat group_queue registry_world) as [H _].
  - intros H. repeat (apply elem_of_cons in H as [H|H]; [discriminate H|]).
    by apply elem_of_nil in H.
  - intros H. repeat (apply elem_of_cons in H as [H|H]; [discriminate H|]).
    by apply elem_of_nil in H.
  - intros H. repeat (apply elem_of_cons in H as [H|H]; [discriminate H|]).
    by apply elem_of_nil in H.
  - reflexivity.
  - vm_compute. reflexivity.
  - reflexivity.
  - vm_compute. reflexivity.
  - reflexivity.
  - reflexivity.
  - exact H.
Defined.

(** X15: a call of a decorated method that is not to be queued ([queued]
    given and false, or not given and the bot's default false) warns and
    calls the method at once with the bot as first argument and the
    keywords other than [queued] and [isgroup]; no queue and no registry is
    touched, and what the method raises is raised. *)
Theorem X15_decorator_direct_call method self a k w :
  "self" ∉ k.*1 -> is_queued self k = false ->
  queuedmessage method self a k w
  = (add_log DECORATOR_WARNING w,
     match fn_call method (bot_id self :: a) (passed_kwargs k) with
     | Some e => inl e
     | None => inr Called
     end).
Proof. intros Hself Hq. rewrite queuedmessage_eval by done. by rewrite Hq. Qed.

Lemma X15_decorator_direct_call_witness :
  queuedmessage failing demo_bot [7] [("queued", 0); ("text", 5)] world0
  = (add_log DECORATOR_WARNING world0, inl (TaskError 7)).
Proof.
  apply (X15_decorator_direct_call failing demo_bot [7] [("queued", 0); ("text", 5)] world0).
  - intros H. repeat (apply elem_of_cons in H as [H|H]; [discriminate H|]).
    by apply elem_of_nil in H.
  - reflexivity.
Defined.

(** X16: a keyword named [func] or [delay_queue] is passed on to the method
    when the call is not queued, but makes a queued call raise [TypeError]:
    [wrapped] hands its keywords to [MessageQueue.put], whose parameters
    have these names.  Nothing is queued then, whatever [isgroup] says. *)
Theorem X16_decorator_keyword_clash method self a k key w :
  "self" ∉ k.*1 -> key ∈ k.*1 -> key = "func" \/ key = "delay_queue" ->
  (is_queued self k = true ->
   queuedmessage method self a k w = (add_log DECORATOR_WARNING w, inl TypeError)) /\
  (is_queued self k = false ->
   queuedmessage method self a k w
   = (add_log DECORATOR_WARNING w,
      match fn_call method (bot_id self :: a) (passed_kwargs k) with
      | Some e => inl e
      | None => inr Called
      end) /\
   kwargs_get key (passed_kwargs k) = kwargs_get key k).
Proof.
  intros Hself Hin Hkey. split.
  - intros Hq. rewrite queuedmessage_eval by done. rewrite Hq.
    erewrite bind_raise; [reflexivity|]. apply put_call_clash.
    exists key. split.
    + unfold put_parameters.
      destruct Hkey as [-> | ->]; [by right; left|by do 2 right; left].
    + unfold passed_kwargs.
      do 2 (apply kwargs_del_keys_2; [by destruct Hkey as [-> | ->]|]). done.
  - intros Hq. split.
    + rewrite queuedmessage_eval by done. by rewrite Hq.
    + apply passed_kwargs_get; by destruct Hkey as [-> | ->].
Qed.

Lemma X16_decorator_keyword_clash_witness :
  queuedmessage noop demo_bot [7] [("func", 3)] registry_world
  = (add_log DECORATOR_WARNING registry_world, inl TypeError).
Proof.
  destruct (X16_decorator_keyword_clash noop demo_bot [7] [("func", 3)] "func"
              registry_world) as [H _].
  - intros H. repeat (apply elem_of_cons in H as [H|H]; [discriminate H|]).
    by apply elem_of_nil in H.
  - left.
  - by left.
  - apply H. reflexivity.
Defined.

(** ** A queue with a parent *)

Lemma runs_of_forward self g d p : runs_of self [EvForward g d p] = [].
Proof. done. Qed.

Lemma process_one_parent self d item w o :
  heap w !! self = Some o -> parent o = Some d ->
  process_one self item w
  = bind (DelayQueue_put d None None None item) (fun _ => ret tt)
         (add_log (EvForward self d item) w).
Proof.
  intros Ho Hp. unfold process_one.
  erewrite bind_ok by by apply deref_ok. by rewrite Hp.
Qed.

(** X17: for a queue with a parent, a burst limit of at least 2 and a time
    limit that is not negative, a turn of the worker that dequeues a promise
    with the shutdown flag not set runs nothing: after the delay of its own
    limits the promise is put on the parent, at the end of the parent's
    queue, and waits there for the parent's limits.  If the parent has been
    stopped, or its worker has ended, the [put] raises on the child's
    thread: the child's worker ends too and the promise is in neither
    queue. *)
Theorem X17_child_forwards_to_parent g d lat w og od p rest :
  heap w !! g = Some og -> heap w !! d = Some od ->
  parent og = Some d -> g <> d ->
  _alive og = true -> __exit_req og = false ->
  2 <= burst_limit og -> 0 <= time_limit og ->
  _queue og = Some p :: rest ->
  let w1 := forget (worker_turn g lat) w in
  runs_of g (log w1) = runs_of g (log w) /\
  runs_of d (log w1) = runs_of d (log w) /\
  (exists og1, heap w1 !! g = Some og1 /\ _queue og1 = rest /\
               _alive og1 = _alive od && negb (__exit_req od)) /\
  heap w1 !! d = Some (if _alive od && negb (__exit_req od)
                       then set_queue (_queue od ++ [Some p]) od
                       else od).
Proof.
  intros Hg Hd Hpar Hgd Halive Hex HB HW Hq w1.
  set (o1 := set_queue rest og).
  set (now := thread_clock og + lat).
  set (ts := spec_window (now - time_limit og) now (times og)).
  set (sl := saturation_sleep (burst_limit og) (now - time_limit og) ts).
  set (o2 := set_times ts (advance_clock (lat + foldr Z.add 0 sl) o1)).
  set (w2 := add_log (EvForward g d (Some p))
               (upd g o2 (add_logs (map (EvSleep g) sl) (upd g o1 w)))).
  assert (heap w2 !! d = Some od) as Hd2.
  { subst w2. simpl. by rewrite !lookup_insert_ne. }
  assert (heap w2 !! g = Some o2) as Hg2.
  { subst w2. simpl. by rewrite lookup_insert_eq. }
  assert (exactly_one_supplied None None None (Some p)) as Hone.
  { left. split; [by eexists|]. by intros [[? [=]] _]. }
  assert (run_iteration g lat w
          = bind (DelayQueue_put d None None None (Some p))
                 (fun _ => ret Continue) w2) as Hturn.
  { rewrite (run_iteration_eval _ _ _ _ Hg), Hq, Hex. simpl.
    erewrite bind_ok; cycle 1.
    { apply (delay_routine_safe g lat (upd g o1 w) o1); [apply heap_upd_eq|done..]. }
    unfold bind at 1.
    rewrite (process_one_parent g d (Some p) _ o2); [|apply heap_upd_eq|done].
    change (add_log _ (upd g _ (add_logs _ (upd g o1 w)))) with w2.
    unfold bind, ret.
    by destruct (DelayQueue_put d None None None (Some p) w2) as [w' [e|r]]. }
  assert (forall x, runs_of x (log w2) = runs_of x (log w)) as Hruns.
  { intros x. subst w2. simpl. rewrite !runs_of_app.
    assert (forall l, runs_of x (map (EvSleep g) l) = []) as ->
      by (induction l; [done|by simpl]).
    by rewrite !app_nil_r. }
  destruct (_alive od && negb (__exit_req od)) eqn:Hrun.
  - apply andb_true_iff in Hrun as [Ha He]. apply negb_true_iff in He.
    assert (w1 = upd d (set_queue (_queue od ++ [Some p]) od) w2) as ->.
    { subst w1. unfold forget, worker_turn.
      erewrite bind_ok by by apply deref_ok. rewrite Halive, Hturn.
      erewrite bind_ok by (by apply (put_running d None None None (Some p) w2 od)).
      done. }
    repeat split; try apply Hruns.
    + exists o2. rewrite heap_upd_ne by done. done.
    + apply heap_upd_eq.
  - assert (_alive od = false \/ __exit_req od = true) as Hstop.
    { apply andb_false_iff in Hrun as [?|Hrun]; [by left|right].
      by apply negb_false_iff in Hrun. }
    assert (w1 = upd g (set_thread true false o2) w2) as ->.
    { subst w1. unfold forget, worker_turn.
      erewrite bind_ok by by apply deref_ok. rewrite Halive, Hturn.
      erewrite bind_raise by (by apply (put_stopped d None None None (Some p) w2 od)).
      unfold Thread_exit. by erewrite update_upd. }
    repeat split; try apply Hruns.
    + eexists. split; [apply heap_upd_eq|done].
    + by rewrite heap_upd_ne.
Qed.

Lemma X17_child_forwards_to_parent_witness :
  runs_of 1%nat (log (forget (worker_turn 1%nat 5) forwarding_world))
    = runs_of 1%nat (log forwarding_world) /\
  runs_of 0%nat (log (forget (worker_turn 1%nat 5) forwarding_world))
    = runs_of 0%nat (log forwarding_world) /\
  (exists og1, heap (forget (worker_turn 1%nat 5) forwarding_world) !! 1%nat = Some og1 /\
               _queue og1 = [] /\ _alive og1 = true) /\
  heap (forget (worker_turn 1%nat 5) forwarding_world) !! 0%nat
    = Some (set_queue [Some (task noop)] default_queue).
Proof.
  apply (X17_child_forwards_to_parent 1%nat 0%nat 5 forwarding_world
           (set_queue [Some (task noop)] group_queue) default_queue (task noop) []).
  - vm_compute. reflexivity.
  - vm_compute. reflexivity.
  - reflexivity.
  - discriminate.
  - reflexivity.
  - reflexivity.
  - simpl. lia.
  - simpl. lia.
  - reflexivity.
Defined.

(** X18: [MessageQueue.set_dispatcher] only records the dispatcher: the
    queues registered before keep the dispatcher they had, and a queue
    added afterwards gets the new one. *)
Theorem X18_set_dispatcher_reaches_later_queues self disp q m o w :
  mq_heap w !! self = Some m -> heap w !! q = Some o ->
  let w1 := forget (MessageQueue_set_dispatcher self disp) w in
  let w2 := forget (MessageQueue_add_delay_queue self q) w1 in
  heap w1 = heap w /\
  mq_heap w1 !! self = Some (set_mq_dispatcher (Some disp) m) /\
  (exists o2, heap w2 !! q = Some o2 /\ dispatcher o2 = Some disp) /\
  (forall q', q' <> q -> heap w2 !! q' = heap w !! q').
Proof.
  intros Hm Ho w1 w2.
  assert (w1 = upd_mq self (set_mq_dispatcher (Some disp) m) w) as Hw1.
  { subst w1. unfold forget, MessageQueue_set_dispatcher.
    by rewrite (update_mq_ok _ _ _ _ Hm). }
  assert (mq_heap w1 !! self = Some (set_mq_dispatcher (Some disp) m)) as Hm1.
  { rewrite Hw1. apply lookup_insert_eq. }
  assert (heap w1 !! q = Some o) as Ho1 by by rewrite Hw1.
  split; [by rewrite Hw1|]. split; [done|].
  subst w2. rewrite (add_delay_queue_eval _ _ _ _ _ Hm1 Ho1). cbv zeta. split.
  - eexists. split; [apply heap_upd_eq|]. simpl.
    by destruct (running m && negb (_alive o) && negb (_started o)).
  - intros q' Hq'. rewrite heap_upd_ne by done. by rewrite Hw1.
Qed.

Lemma X18_set_dispatcher_reaches_later_queues_witness :
  heap (forget (MessageQueue_set_dispatcher 0%nat the_dispatcher) idle_registry_world)
    = heap idle_registry_world /\
  mq_heap (forget (MessageQueue_set_dispatcher 0%nat the_dispatcher) idle_registry_world)
    !! 0%nat = Some (set_mq_dispatcher (Some the_dispatcher) idle_registry_object) /\
  (exists o2, heap (forget (MessageQueue_add_delay_queue 0%nat 1%nat)
                      (forget (MessageQueue_set_dispatcher 0%nat the_dispatcher)
                         idle_registry_world)) !! 1%nat = Some o2 /\
              dispatcher o2 = Some the_dispatcher) /\
  (forall q', q' <> 1%nat ->
     heap (forget (MessageQueue_add_delay_queue 0%nat 1%nat)
             (forget (MessageQueue_set_dispatcher 0%nat the_dispatcher)
                idle_registry_world)) !! q' = heap idle_registry_world !! q').
Proof.
  apply (X18_set_dispatcher_reaches_later_queues 0%nat the_dispatcher 1%nat
           idle_registry_object
           (mkDelayQueue GROUP_QUEUE [] 20 60000000000 (Some 0%nat) None
              _default_exception_handler false false false [] 0)
           idle_registry_world).
  - vm_compute. reflexivity.
  - vm_compute. reflexivity.
Defined.
